(** * sequential-validators: the ValidationResult algebra, the field
    validators and the schema validator, embedded over an explicit
    JavaScript store.

    The source mutates Result objects in place ([addError], [merge]), hands
    out the receiver itself from [map]/[flatMap] on failure and lets
    [ValidationResult.fail] keep the very array it is given.  Objects are
    therefore cells of a store, values refer to them by address, and every
    operation is a state transformer that either returns or throws. *)

From Stdlib Require Import ZArith NArith String Ascii List Bool Lia.
From Stdlib Require Import SpecFloat DecimalString.
From stdpp Require Import base list strings.

Local Open Scope nat_scope.

(** ** Values and the store *)

Abbreviation addr := nat.

(** A JavaScript value.  Numbers are IEEE 754 values ([spec_float]: zero,
    infinity, NaN or finite); arrays, objects and class instances are
    references into the store; a function value is named by its index in the
    host's function table. *)
Inductive JsVal : Type :=
| VUndefined
| VNull
| VBool (b : bool)
| VNum (x : spec_float)
| VStr (s : string)
| VFun (id : nat)
| VRef (a : addr).

(** A cell of the store.  [OPlain] lists the own properties of an ordinary
    object in the order in which they were created.  [OResult] is an instance
    of [ValidationResult]: [value] is [None] while the property has not been
    assigned ([ValidationResult.fail] never assigns it). *)
Inductive HObj : Type :=
| OArray (elems : list JsVal)
| OPlain (props : list (string * JsVal))
| OResult (isValid : bool) (errors : JsVal) (value : option JsVal)
| OSchemaValidator (rules : JsVal).

(** What a [throw] carries: [new Error(message)], a [TypeError] of the
    runtime, or whatever a callback threw. *)
Inductive JsExn : Type :=
| ExnError (message : string)
| ExnTypeError
| ExnThrown (v : JsVal).

Inductive Outcome (S A : Type) : Type :=
| Ret (a : A) (s : S)
| Throw (e : JsExn) (s : S).
Arguments Ret {S A} a s.
Arguments Throw {S A} e s.

(** The store together with the record of the function invocations made so
    far, oldest first, callbacks and the [toString] of a converted object
    alike: the function's index, its argument and what it returned ([None]
    when it threw).  Functions see the store only. *)
Record State : Type := mkState {
  heap : list HObj;
  calls : list (nat * JsVal * option JsVal)
}.

(** The state an outcome leaves behind, returned or thrown. *)
Definition final {S A} (o : Outcome S A) : S :=
  match o with Ret _ s => s | Throw _ s => s end.

(** ** The state-and-exception monad *)

Definition M (A : Type) : Type := State -> Outcome State A.

Definition ret {A} (a : A) : M A := fun s => Ret a s.
Definition throw {A} (e : JsExn) : M A := fun s => Throw e s.
Definition bind {A B} (m : M A) (k : A -> M B) : M B :=
  fun s => match m s with
           | Ret a s' => k a s'
           | Throw e s' => Throw e s'
           end.

Declare Scope js_scope.
Delimit Scope js_scope with js.
Notation "x <- c ;; k" := (bind c (fun x => k))
  (at level 100, c at next level, right associativity) : js_scope.
Notation "c ;;; k" := (bind c (fun _ => k))
  (at level 100, right associativity) : js_scope.
Local Open Scope js_scope.

Definition get_heap : M (list HObj) := fun s => Ret (heap s) s.

(** Allocation takes the next free address. *)
Definition alloc (o : HObj) : M addr :=
  fun s => Ret (length (heap s)) (mkState (heap s ++ [o]) (calls s)).

Definition store (a : addr) (o : HObj) : M unit :=
  fun s => Ret tt (mkState (<[a:=o]> (heap s)) (calls s)).

(** ** The host: what the repository takes from its environment *)

(** The kinds of value that have properties.  Values of one kind share a
    prototype: [Object.prototype] for ordinary objects, [Array.prototype]
    for arrays, the class prototypes for the instances of the two classes of
    the repository, and so on.  A function has own properties as well
    ([name], [length]), which the store does not hold: its kind names the
    function. *)
Inductive Kind : Type :=
| KPlain
| KArray
| KResult
| KSchemaValidator
| KFunction (id : nat)
| KString
| KNumber
| KBoolean.

(** [fun_method id this arg h] runs function [id] with receiver [this] on
    one argument in store [h]; an argument left out is [undefined].
    [NumberToString] is the digit generation of [Number::toString].
    [inherited kind key] is what reading [key] yields on a value of that kind
    when the store holds no own property [key] for it: the member its
    prototype chain provides ([constructor], [toString], [valueOf], ... on
    every object; on a class instance also the methods of its class, as
    function values) or [undefined].  How functions behave, how numbers
    print and what the prototypes of the runtime hold is not decided by the
    code verified here. *)
Class Host : Type := {
  fun_method : nat -> JsVal -> JsVal -> list HObj -> Outcome (list HObj) JsVal;
  NumberToString : spec_float -> string;
  inherited : Kind -> string -> JsVal
}.

(** [fn(arg)], a call without a receiver: in strict code [this] is
    [undefined]. *)
Definition fun_body `{Host} (id : nat) (arg : JsVal) (h : list HObj)
    : Outcome (list HObj) JsVal :=
  fun_method id VUndefined arg h.

(** [src/patterns.js] is not part of the sources at hand: the validators see
    each pattern only through [RegExp.prototype.test] on a string. *)
Class Patterns : Type := {
  UUID : string -> bool;
  EMAIL : string -> bool;
  URL : string -> bool;
  IDENTIFIER : string -> bool;
  PORT : string -> bool
}.

(** ** Runtime primitives *)

Definition typeof (v : JsVal) : string :=
  match v with
  | VUndefined => "undefined"
  | VNull => "object"
  | VBool _ => "boolean"
  | VNum _ => "number"
  | VStr _ => "string"
  | VFun _ => "function"
  | VRef _ => "object"
  end.

Definition is_nan (x : spec_float) : bool :=
  match x with S754_nan => true | _ => false end.

(** The global [isNaN].  The source calls it behind [typeof value !==
    'number' ||], so only numbers reach it; the [ToNumber] conversion of other
    arguments is left out. *)
Definition isNaN (v : JsVal) : bool :=
  match v with VNum x => is_nan x | _ => false end.

(** [a === b]. *)
Definition strict_equals (a b : JsVal) : bool :=
  match a, b with
  | VUndefined, VUndefined => true
  | VNull, VNull => true
  | VBool x, VBool y => Bool.eqb x y
  | VNum x, VNum y => SFeqb x y
  | VStr x, VStr y => String.eqb x y
  | VFun x, VFun y => Nat.eqb x y
  | VRef x, VRef y => Nat.eqb x y
  | _, _ => false
  end.

(** SameValueZero, the comparison of [Array.prototype.includes]: as [===]
    except that NaN equals NaN. *)
Definition same_value_zero (a b : JsVal) : bool :=
  match a, b with
  | VNum x, VNum y => (is_nan x && is_nan y) || SFeqb x y
  | _, _ => strict_equals a b
  end.

Definition ToBoolean (v : JsVal) : bool :=
  match v with
  | VUndefined | VNull => false
  | VBool b => b
  | VNum (S754_zero _) | VNum S754_nan => false
  | VNum _ => true
  | VStr s => negb (String.eqb s "")
  | VFun _ | VRef _ => true
  end.

Definition Array_isArray (h : list HObj) (v : JsVal) : bool :=
  match v with
  | VRef a => match h !! a with Some (OArray _) => true | _ => false end
  | _ => false
  end.

Definition nat_to_string (n : nat) : string :=
  NilZero.string_of_uint (Nat.to_uint n).

Definition nat_to_number (n : nat) : spec_float :=
  binary_normalize 53 1024 (Z.of_nat n) 0 false.

(** A value that is not an object. *)
Definition is_primitive (v : JsVal) : bool :=
  match v with VRef _ | VFun _ => false | _ => true end.

(** [ToString] of a value that is not an object; it is applied to no
    other. *)
Definition primitive_to_string `{Host} (v : JsVal) : string :=
  match v with
  | VUndefined => "undefined"
  | VNull => "null"
  | VBool true => "true"
  | VBool false => "false"
  | VNum x => NumberToString x
  | VStr s => s
  | VFun _ | VRef _ => ""
  end.

(** Own-property lookup in an ordinary object. *)
Fixpoint assoc (key : string) (props : list (string * JsVal)) : option JsVal :=
  match props with
  | [] => None
  | (k, v) :: rest => if String.eqb k key then Some v else assoc key rest
  end.

(** A property key is an array index when it is the canonical decimal form of
    an integer below 2^32 - 1. *)
Definition array_index (key : string) : option N :=
  match NilZero.uint_of_string key with
  | Some d =>
      let n := N.of_uint d in
      if String.eqb (NilZero.string_of_uint (N.to_uint n)) key
         && (n <? 4294967295)%N
      then Some n else None
  | None => None
  end.

Section Properties.
Context `{Host}.

(** [v[key]] for a string key; [None] is the TypeError of reading a property
    of [undefined] or [null].  An own property is read first, then the
    prototype chain ([inherited]).  The class [ValidationResult] declares no
    member named [value], so that key reads as [undefined] on a Result that
    has not been given one. *)
Definition Get (h : list HObj) (v : JsVal) (key : string) : option JsVal :=
  match v with
  | VUndefined | VNull => None
  | VRef a =>
      Some match h !! a with
           | Some (OPlain props) =>
               match assoc key props with
               | Some x => x
               | None => inherited KPlain key
               end
           | Some (OArray elems) =>
               if String.eqb key "length"
               then VNum (nat_to_number (length elems))
               else match array_index key with
                    | Some i =>
                        match elems !! N.to_nat i with
                        | Some x => x
                        | None => inherited KArray key
                        end
                    | None => inherited KArray key
                    end
           | Some (OResult isValid errors value) =>
               if String.eqb key "isValid" then VBool isValid
               else if String.eqb key "errors" then errors
               else if String.eqb key "value" then default VUndefined value
               else inherited KResult key
           | Some (OSchemaValidator rules) =>
               if String.eqb key "rules" then rules
               else inherited KSchemaValidator key
           | None => VUndefined
           end
  | VStr s =>
      Some (if String.eqb key "length"
            then VNum (nat_to_number (String.length s))
            else match array_index key with
                 | Some i =>
                     match String.get (N.to_nat i) s with
                     | Some c => VStr (String c EmptyString)
                     | None => inherited KString key
                     end
                 | None => inherited KString key
                 end)
  | VBool _ => Some (inherited KBoolean key)
  | VNum _ => Some (inherited KNumber key)
  | VFun id => Some (inherited (KFunction id) key)
  end.

Definition get (v : JsVal) (key : string) : M JsVal :=
  fun s => match Get (heap s) v key with
           | Some x => Ret x s
           | None => Throw ExnTypeError s
           end.
End Properties.

(** What the spread [...v] yields: the elements of an array, the characters
    of a string; anything else is not iterable. *)
Definition spread (v : JsVal) : M (list JsVal) :=
  fun s => match v with
           | VRef a =>
               match heap s !! a with
               | Some (OArray elems) => Ret elems s
               | _ => Throw ExnTypeError s
               end
           | VStr str =>
               Ret (List.map (fun c => VStr (String c EmptyString))
                      (list_ascii_of_string str)) s
           | _ => Throw ExnTypeError s
           end.

(** [arr.push(...items)]: only arrays have [push]. *)
Definition push (arr : JsVal) (items : list JsVal) : M unit :=
  fun s => match arr with
           | VRef a =>
               match heap s !! a with
               | Some (OArray elems) =>
                   Ret tt (mkState (<[a:=OArray (elems ++ items)]> (heap s))
                                   (calls s))
               | _ => Throw ExnTypeError s
               end
           | _ => Throw ExnTypeError s
           end.

(** [needle] occurs in [hay]. *)
Definition is_substring (needle hay : string) : bool :=
  match String.index 0 needle hay with Some _ => true | None => false end.

(** [arr.length] of an array, as a natural number; the source takes the
    length of its own local array only. *)
Definition array_length (arr : JsVal) : M nat :=
  fun s => match arr with
           | VRef a =>
               match heap s !! a with
               | Some (OArray elems) => Ret (length elems) s
               | _ => Throw ExnTypeError s
               end
           | _ => Throw ExnTypeError s
           end.

Section Calls.
Context `{Host}.

(** [fn(arg)]: calling what is not a function is a TypeError; a call of a
    function is recorded. *)
Definition call (fn arg : JsVal) : M JsVal :=
  fun s => match fn with
           | VFun id =>
               match fun_body id arg (heap s) with
               | Ret v h' =>
                   Ret v (mkState h' (calls s ++ [(id, arg, Some v)]))
               | Throw e h' =>
                   Throw e (mkState h' (calls s ++ [(id, arg, None)]))
               end
           | _ => Throw ExnTypeError s
           end.

(** [obj.m(arg)] once the member [m] has been read: the function runs with
    [obj] as its receiver. *)
Definition call_method (fn this arg : JsVal) : M JsVal :=
  fun s => match fn with
           | VFun id =>
               match fun_method id this arg (heap s) with
               | Ret v h' =>
                   Ret v (mkState h' (calls s ++ [(id, arg, Some v)]))
               | Throw e h' =>
                   Throw e (mkState h' (calls s ++ [(id, arg, None)]))
               end
           | _ => Throw ExnTypeError s
           end.

(** One step of [OrdinaryToPrimitive]: the member [name] of [obj] is called
    when it is a function, and its result is taken when it is not an object;
    in every other case the conversion goes on with [otherwise]. *)
Definition try_method (name : string) (obj : JsVal) (otherwise : M JsVal)
    : M JsVal :=
  m <- get obj name;;
  match m with
  | VFun _ =>
      r <- call_method m obj VUndefined;;
      if is_primitive r then ret r else otherwise
  | _ => otherwise
  end.

(** [ToPrimitive] with hint string: an object is asked for its [toString],
    then for its [valueOf]; when neither yields a primitive the conversion
    is a TypeError. *)
Definition ToPrimitive (v : JsVal) : M JsVal :=
  if is_primitive v then ret v
  else try_method "toString" v (try_method "valueOf" v (throw ExnTypeError)).

(** [ToString], the conversion behind [String(v)], a template literal, the
    elements of a [join] and a computed property key.  On an object it runs
    the object's own or inherited [toString]/[valueOf], which may change the
    store or throw. *)
Definition ToString (v : JsVal) : M string :=
  p <- ToPrimitive v;;
  ret (primitive_to_string p).

(** Element [k] of the array at [a] as [Array.prototype.join] reads it. *)
Definition element_at (h : list HObj) (a : addr) (k : nat) : JsVal :=
  match h !! a with
  | Some (OArray elems) =>
      match elems !! k with
      | Some x => x
      | None => inherited KArray (nat_to_string k)
      end
  | _ => VUndefined
  end.

(** What [Array.prototype.join] makes of one element: [undefined] and
    [null] print as nothing. *)
Definition element_to_string (element : JsVal) : M string :=
  match element with
  | VUndefined | VNull => ret ""
  | _ => ToString element
  end.

(** The loop of [Array.prototype.join]: elements [k], [k+1], ... are read
    and converted one after the other. *)
Fixpoint join_from (a : addr) (k n : nat) (pieces : list string)
    : M (list string) :=
  match n with
  | O => ret pieces
  | S n' =>
      h <- get_heap;;
      next <- element_to_string (element_at h a k);;
      join_from a (S k) n' (pieces ++ [next])
  end.

(** [arr.join(sep)] for the array stored at [a]: the length is taken once,
    before any element is converted. *)
Definition Array_join (a : addr) (sep : string) : M string :=
  fun s => match heap s !! a with
           | Some (OArray elems) =>
               (pieces <- join_from a 0 (length elems) [];;
                ret (String.concat sep pieces)) s
           | _ => Throw ExnTypeError s
           end.

(** [obj.join(sep)]: [Array.prototype.join] on an array; on anything else
    the member [join] is read and called. *)
Definition join (obj : JsVal) (sep : string) : M JsVal :=
  fun s => match obj with
           | VRef a =>
               match heap s !! a with
               | Some (OArray _) =>
                   (joined <- Array_join a sep;; ret (VStr joined)) s
               | _ => (m <- get obj "join";; call_method m obj (VStr sep)) s
               end
           | _ => (m <- get obj "join";; call_method m obj (VStr sep)) s
           end.

(** [obj.includes(x)]: [Array.prototype.includes] on an array,
    [String.prototype.includes] on a string, which searches for the string
    form of [x]; on anything else the member [includes] is read and
    called. *)
Definition includes (obj x : JsVal) : M JsVal :=
  fun s => match obj with
           | VRef a =>
               match heap s !! a with
               | Some (OArray elems) =>
                   Ret (VBool (existsb (fun y => same_value_zero y x) elems)) s
               | _ => (m <- get obj "includes";; call_method m obj x) s
               end
           | VStr str =>
               (needle <- ToString x;; ret (VBool (is_substring needle str))) s
           | _ => (m <- get obj "includes";; call_method m obj x) s
           end.
End Calls.

(** ** src/result.js *)

Module ValidationResult.
Section Methods.
Context `{Host}.

(** [new ValidationResult(isValid, errors)] *)
Definition new (isValid : bool) (errors : JsVal) : M addr :=
  alloc (OResult isValid errors None).

(** [result.value = value] *)
Definition set_value (this : addr) (value : JsVal) : M unit :=
  fun s => match heap s !! this with
           | Some (OResult isValid errors _) =>
               store this (OResult isValid errors (Some value)) s
           | _ => Throw ExnTypeError s
           end.

(** [this.isValid = false] *)
Definition set_invalid (this : addr) : M unit :=
  fun s => match heap s !! this with
           | Some (OResult _ errors value) =>
               store this (OResult false errors value) s
           | _ => Throw ExnTypeError s
           end.

Definition ok (value : JsVal) : M JsVal :=
  empty <- alloc (OArray []);;
  result <- new true (VRef empty);;
  set_value result value;;;
  ret (VRef result).

Definition fail (errors : JsVal) : M JsVal :=
  (* default parameter: errors = [] *)
  errors <- match errors with
            | VUndefined => a <- alloc (OArray []);; ret (VRef a)
            | _ => ret errors
            end;;
  h <- get_heap;;
  errorArray <- (if Array_isArray h errors then ret errors
                 else a <- alloc (OArray [errors]);; ret (VRef a));;
  result <- new false errorArray;;
  ret (VRef result).

Definition addError (this : addr) (error : JsVal) : M JsVal :=
  errors <- get (VRef this) "errors";;
  push errors [error];;;
  set_invalid this;;;
  ret (VRef this).

Definition merge (this : addr) (other : JsVal) : M JsVal :=
  otherValid <- get other "isValid";;
  (if negb (ToBoolean otherValid) then
     set_invalid this;;;
     errors <- get (VRef this) "errors";;
     otherErrors <- get other "errors";;
     items <- spread otherErrors;;
     push errors items
   else ret tt);;;
  ret (VRef this).

Definition map (this : addr) (fn : JsVal) : M JsVal :=
  isValid <- get (VRef this) "isValid";;
  if negb (ToBoolean isValid) then ret (VRef this)
  else
    value <- get (VRef this) "value";;
    mapped <- call fn value;;
    ok mapped.

Definition flatMap (this : addr) (fn : JsVal) : M JsVal :=
  isValid <- get (VRef this) "isValid";;
  if negb (ToBoolean isValid) then ret (VRef this)
  else
    value <- get (VRef this) "value";;
    call fn value.

Definition getOrThrow (this : addr) : M JsVal :=
  isValid <- get (VRef this) "isValid";;
  if negb (ToBoolean isValid) then
    errors <- get (VRef this) "errors";;
    joined <- join errors ", ";;
    joined <- ToString joined;;
    throw (ExnError ("Validation failed: " +:+ joined))
  else get (VRef this) "value".

Definition getOr (this : addr) (defaultValue : JsVal) : M JsVal :=
  isValid <- get (VRef this) "isValid";;
  if ToBoolean isValid then get (VRef this) "value" else ret defaultValue.
End Methods.
End ValidationResult.

(** ** src/field-validators.js *)

Module FieldValidators.
Section Validators.
Context `{Host} `{Patterns}.
Import ValidationResult.

(** [pattern.test(value)]: the argument is matched in its string form. *)
Definition test (pattern : string -> bool) (value : JsVal) : M bool :=
  str <- ToString value;; ret (pattern str).

Definition isUUID (value : JsVal) : M JsVal :=
  if negb (String.eqb (typeof value) "string") then
    fail (VStr "Value must be a string")
  else
    matched <- test UUID value;;
    if negb matched then fail (VStr "Value is not a valid UUID")
    else ok value.

Definition isEmail (value : JsVal) : M JsVal :=
  if negb (String.eqb (typeof value) "string") then
    fail (VStr "Value must be a string")
  else
    matched <- test EMAIL value;;
    if negb matched then fail (VStr "Value is not a valid email address")
    else ok value.

Definition isRequired (value fieldName : JsVal) : M JsVal :=
  (* default parameter: fieldName = 'Value' *)
  let fieldName := match fieldName with
                   | VUndefined => VStr "Value"
                   | _ => fieldName
                   end in
  if strict_equals value VNull || strict_equals value VUndefined
     || strict_equals value (VStr "") then
    name <- ToString fieldName;;
    fail (VStr (name +:+ " is required"))
  else ok value.

Definition isString (value : JsVal) : M JsVal :=
  if negb (String.eqb (typeof value) "string") then
    fail (VStr "Value must be a string")
  else ok value.

Definition isNumber (value : JsVal) : M JsVal :=
  if negb (String.eqb (typeof value) "number") || isNaN value then
    fail (VStr "Value must be a number")
  else ok value.

Definition isBoolean (value : JsVal) : M JsVal :=
  if negb (String.eqb (typeof value) "boolean") then
    fail (VStr "Value must be a boolean")
  else ok value.

Definition isArray (value : JsVal) : M JsVal :=
  h <- get_heap;;
  if negb (Array_isArray h value) then fail (VStr "Value must be an array")
  else ok value.

Definition isObject (value : JsVal) : M JsVal :=
  h <- get_heap;;
  if strict_equals value VNull || negb (String.eqb (typeof value) "object")
     || Array_isArray h value then
    fail (VStr "Value must be an object")
  else ok value.

Definition isURL (value : JsVal) : M JsVal :=
  if negb (String.eqb (typeof value) "string") then
    fail (VStr "Value must be a string")
  else
    matched <- test URL value;;
    if negb matched then fail (VStr "Value is not a valid URL")
    else ok value.

Definition isIdentifier (value : JsVal) : M JsVal :=
  if negb (String.eqb (typeof value) "string") then
    fail (VStr "Value must be a string")
  else
    matched <- test IDENTIFIER value;;
    if negb matched then fail (VStr "Value is not a valid identifier")
    else ok value.

Definition isOneOf (value allowedValues : JsVal) : M JsVal :=
  found <- includes allowedValues value;;
  if negb (ToBoolean found) then
    joined <- join allowedValues ", ";;
    joined <- ToString joined;;
    fail (VStr ("Value must be one of: " +:+ joined))
  else ok value.

Definition isPort (value : JsVal) : M JsVal :=
  stringValue <- ToString value;;
  matched <- test PORT (VStr stringValue);;
  if negb matched then
    fail (VStr "Value is not a valid port number (0-65535)")
  else ok value.
End Validators.
End FieldValidators.

(** ** src/schema-validators.js *)

(** The order in which an ordinary object enumerates its own properties:
    array-index keys first, by ascending index, then every other key in
    creation order. *)
Fixpoint insert_by_index (x : N * (string * JsVal))
    (l : list (N * (string * JsVal))) : list (N * (string * JsVal)) :=
  match l with
  | [] => [x]
  | y :: l' =>
      if (fst x <? fst y)%N then x :: y :: l' else y :: insert_by_index x l'
  end.

Definition index_props (props : list (string * JsVal))
    : list (N * (string * JsVal)) :=
  omap (fun kv => match array_index (fst kv) with
                  | Some i => Some (i, kv)
                  | None => None
                  end) props.

Definition is_index_key (key : string) : bool :=
  match array_index key with Some _ => true | None => false end.

Definition enumeration_order (props : list (string * JsVal))
    : list (string * JsVal) :=
  List.map snd (fold_right insert_by_index [] (index_props props))
  ++ List.filter (fun kv => negb (is_index_key (fst kv))) props.

(** [Object.entries(v)]; [None] is the TypeError on [undefined] and [null]. *)
Definition Object_entries (h : list HObj) (v : JsVal)
    : option (list (string * JsVal)) :=
  match v with
  | VUndefined | VNull => None
  | VRef a =>
      Some match h !! a with
           | Some (OPlain props) => enumeration_order props
           | Some (OArray elems) =>
               imap (fun i x => (nat_to_string i, x)) elems
           | Some (OResult isValid errors value) =>
               [("isValid", VBool isValid); ("errors", errors)]
               ++ match value with Some v => [("value", v)] | None => [] end
           | Some (OSchemaValidator rules) => [("rules", rules)]
           | None => []
           end
  | VStr s =>
      Some (imap (fun i c => (nat_to_string i, VStr (String c EmptyString)))
              (list_ascii_of_string s))
  | VBool _ | VNum _ | VFun _ => Some []
  end.

Definition entries (v : JsVal) : M (list (string * JsVal)) :=
  fun s => match Object_entries (heap s) v with
           | Some l => Ret l s
           | None => Throw ExnTypeError s
           end.

Module SchemaValidator.
Section Methods.
Context `{Host}.
Import ValidationResult.

(** [new SchemaValidator(rules)], with the default parameter [rules = {}]. *)
Definition new (rules : JsVal) : M addr :=
  rules <- match rules with
           | VUndefined => a <- alloc (OPlain []);; ret (VRef a)
           | _ => ret rules
           end;;
  alloc (OSchemaValidator rules).

(** The body of the [for ... of] loop over the entries, run for each
    [[fieldName, validator]] in turn. *)
Fixpoint validate_loop (errors data : JsVal)
    (rules : list (string * JsVal)) : M unit :=
  match rules with
  | [] => ret tt
  | (fieldName, validator) :: rest =>
      value <- get data fieldName;;
      result <- call validator value;;
      isValid <- get result "isValid";;
      (if negb (ToBoolean isValid) then
         resultErrors <- get result "errors";;
         record <- alloc (OPlain [("field", VStr fieldName);
                                  ("errors", resultErrors)]);;
         push errors [VRef record]
       else ret tt);;;
      validate_loop errors data rest
  end.

Definition validate (this : addr) (data : JsVal) : M JsVal :=
  errors <- alloc (OArray []);;
  rules <- get (VRef this) "rules";;
  rules <- entries rules;;
  validate_loop (VRef errors) data rules;;;
  len <- array_length (VRef errors);;
  if 0 <? len then fail (VRef errors) else ok data.
End Methods.
End SchemaValidator.

Section ValidateSchema.
Context `{Host}.

Definition validateSchema (data schema : JsVal) : M JsVal :=
  validator <- SchemaValidator.new schema;;
  SchemaValidator.validate validator data.

(** The standalone form as the specification words it: construct a schema
    validator from the rule mapping, then call its [validate] once. *)
Definition construct_then_validate (data ruleMapping : JsVal) : M JsVal :=
  fun s =>
    match SchemaValidator.new ruleMapping s with
    | Ret validator s1 => SchemaValidator.validate validator data s1
    | Throw e s1 => Throw e s1
    end.
End ValidateSchema.

(** ** A host to run examples on *)

(** Runs a computation as the body of a callback. *)
Definition as_body (m : M JsVal) (h : list HObj)
    : Outcome (list HObj) JsVal :=
  match m (mkState h []) with
  | Ret v s => Ret v (heap s)
  | Throw e s => Throw e (heap s)
  end.

(** The decimal form of the integers, which is all the examples print. *)
Definition sample_number_to_string (x : spec_float) : string :=
  match x with
  | S754_nan => "NaN"
  | S754_infinity false => "Infinity"
  | S754_infinity true => "-Infinity"
  | S754_zero _ => "0"
  | S754_finite sign m e =>
      let digits (z : Z) :=
        (if sign then "-" else "") +:+ NilZero.string_of_uint (N.to_uint (Z.to_N z)) in
      if (0 <=? e)%Z then digits (Z.pos m * 2 ^ e)%Z
      else if (Z.pos m mod 2 ^ (- e) =? 0)%Z then digits (Z.pos m / 2 ^ (- e))%Z
      else ""
  end.

(** Function 0 throws; 1 returns its argument; 2 and 3 are [isString] and
    [isNumber]; 4 is [() => ValidationResult.fail('bad')]; 5 is
    [Object.prototype.toString] on an ordinary object; 6 is [() => '80'];
    7 is the constructor [Object] called as a function, which returns an
    object as it is and makes a new object of anything else (an empty
    ordinary object here); 8 is [value => isRequired(value)]; every other
    index is [x => ValidationResult.ok(x)].  Of the inherited members the
    host provides those the examples read: [toString] (function 5) of
    ordinary objects and class instances, and [constructor] (function 7) of
    ordinary objects. *)
Definition sample_host : Host := {|
  fun_method id this arg :=
    match id with
    | 0 => fun h => Throw (ExnThrown (VStr "boom")) h
    | 1 => fun h => Ret arg h
    | 2 => as_body (FieldValidators.isString arg)
    | 3 => as_body (FieldValidators.isNumber arg)
    | 4 => as_body (ValidationResult.fail (VStr "bad"))
    | 5 => fun h => Ret (VStr "[object Object]") h
    | 6 => fun h => Ret (VStr "80") h
    | 7 => fun h => match arg with
                    | VRef _ | VFun _ => Ret arg h
                    | _ => Ret (VRef (length h)) (h ++ [OPlain []])
                    end
    | 8 => match arg with
           | VUndefined | VNull | VStr EmptyString =>
               as_body (ValidationResult.fail (VStr "Value is required"))
           | _ => as_body (ValidationResult.ok arg)
           end
    | _ => as_body (ValidationResult.ok arg)
    end;
  NumberToString := sample_number_to_string;
  inherited kind key :=
    match kind with
    | KPlain =>
        if String.eqb key "toString" then VFun 5
        else if String.eqb key "constructor" then VFun 7
        else VUndefined
    | KResult | KSchemaValidator =>
        if String.eqb key "toString" then VFun 5 else VUndefined
    | _ => VUndefined
    end
|}.

(** Modelled from the spec: [PATTERNS.PORT] of the absent [src/patterns.js],
    "an integer in [0, 65535]", read as a canonical decimal numeral in that
    range.  The other patterns are not exercised and accept nothing here. *)
Definition sample_patterns : Patterns := {|
  UUID _ := false;
  EMAIL _ := false;
  URL _ := false;
  IDENTIFIER _ := false;
  PORT s :=
    match NilZero.uint_of_string s with
    | Some d =>
        String.eqb (NilZero.string_of_uint (N.to_uint (N.of_uint d))) s
        && (N.of_uint d <=? 65535)%N
    | None => false
    end
|}.

(** The integer [z] as a JavaScript number. *)
Definition num (z : Z) : JsVal := VNum (binary_normalize 53 1024 z 0 false).

(** ** What a validator returns *)

(** [ValidationResult.ok(value)] run in [s]: a fresh empty array and a fresh
    succeeding Result that wraps [value]. *)
Definition returned_ok (s : State) (value : JsVal) : Outcome State JsVal :=
  Ret (VRef (S (length (heap s))))
      (mkState (heap s ++ [OArray [];
                           OResult true (VRef (length (heap s))) (Some value)])
               (calls s)).

(** [ValidationResult.fail(error)] run in [s] for an [error] that is neither
    [undefined] nor an array: a fresh one-element array and a fresh failing
    Result without a value. *)
Definition returned_fail (s : State) (error : JsVal) : Outcome State JsVal :=
  Ret (VRef (S (length (heap s))))
      (mkState (heap s ++ [OArray [error];
                           OResult false (VRef (length (heap s))) None])
               (calls s)).

(** [isValid] of the Result an outcome returns. *)
Definition isValid_of (o : Outcome State JsVal) : option bool :=
  match o with
  | Ret (VRef r) s =>
      match heap s !! r with Some (OResult b _ _) => Some b | _ => None end
  | _ => None
  end.

(** The value the Result an outcome returns wraps. *)
Definition value_of (o : Outcome State JsVal) : option JsVal :=
  match o with
  | Ret (VRef r) s =>
      match heap s !! r with Some (OResult _ _ v) => v | _ => None end
  | _ => None
  end.

(** The outcome is a normal return of a reference to a Result. *)
Definition returns_result (o : Outcome State JsVal) : bool :=
  match o with
  | Ret (VRef r) s =>
      match heap s !! r with Some (OResult _ _ _) => true | _ => false end
  | _ => false
  end.

Definition s0 : State := mkState [] [].

(** ** Vocabulary of the schema validator's contract *)

(** A validator in the sense of the library: a function that, on every
    argument and in every store, returns a reference to a Result and leaves
    the cells that existed before the call as they were. *)
Definition validator_fn `{Host} (fn : JsVal) : Prop :=
  exists id, fn = VFun id /\
    forall arg h, exists r new b e val,
      fun_body id arg h = Ret (VRef r) (h ++ new) /\
      (h ++ new) !! r = Some (OResult b e val).

Definition fn_index (fn : JsVal) : nat :=
  match fn with VFun id => id | _ => 0 end.

(** [isValid] and [errors] of the Result stored at [r]. *)
Definition valid_at (h : list HObj) (r : addr) : bool :=
  match h !! r with Some (OResult b _ _) => b | _ => false end.

Definition errors_at (h : list HObj) (r : addr) : JsVal :=
  match h !! r with Some (OResult _ e _) => e | _ => VUndefined end.

(** The fields whose Result fails, in the order given. *)
Definition failing (h : list HObj) (outs : list (string * addr))
    : list (string * addr) :=
  List.filter (fun p => negb (valid_at h (snd p))) outs.

(** [rec] holds the record [{field, errors}] of field [p.1], whose validator
    returned the Result at [p.2]. *)
Definition record_of (h : list HObj) (p : string * addr) (rec : addr) : Prop :=
  h !! rec = Some (OPlain [("field", VStr (fst p));
                           ("errors", errors_at h (snd p))]).

(** The invocations [validate] makes: for each rule in turn, its validator
    on [data[fieldName]], returning the Result at the matching address. *)
Definition invocations `{Host} (h : list HObj) (data : JsVal)
    (rules : list (string * JsVal)) (outs : list addr)
    : list (nat * JsVal * option JsVal) :=
  zip_with (fun kv out =>
              (fn_index (snd kv), default VUndefined (Get h data (fst kv)),
               Some (VRef out)))
           rules outs.

(** The field names of the [{field, errors}] records an array refers to. *)
Definition record_fields `{Host} (h : list HObj) (elems : list JsVal) : list JsVal :=
  List.map (fun x => default VUndefined (Get h x "field")) elems.

(** [h'] extends [h] and agrees with it everywhere but at [errors]. *)
Definition frame (errors : addr) (h h' : list HObj) : Prop :=
  length h <= length h' /\
  forall a, a < length h -> a <> errors -> h' !! a = h !! a.

(** A reference points into the store. *)
Definition valid_ref (h : list HObj) (v : JsVal) : Prop :=
  match v with VRef a => a < length h | _ => True end.

(** ** Histories of Results *)

(** One use of the Result interface: an entry point ([ok], [fail]) or a
    method called on the Result stored at [this]. *)
Inductive Op : Type :=
| OpOk (value : JsVal)
| OpFail (errors : JsVal)
| OpAddError (this : addr) (error : JsVal)
| OpMerge (this other : addr)
| OpMap (this : addr) (fn : JsVal)
| OpFlatMap (this : addr) (fn : JsVal).

Definition run_op `{Host} (op : Op) : M JsVal :=
  match op with
  | OpOk value => ValidationResult.ok value
  | OpFail errors => ValidationResult.fail errors
  | OpAddError this error => ValidationResult.addError this error
  | OpMerge this other => ValidationResult.merge this (VRef other)
  | OpMap this fn => ValidationResult.map this fn
  | OpFlatMap this fn => ValidationResult.flatMap this fn
  end.

(** A history runs its operations one after the other; an operation that
    throws leaves its state to the next one. *)
Fixpoint run_ops `{Host} (ops : list Op) (s : State) : State :=
  match ops with
  | [] => s
  | op :: rest => run_ops rest (final (run_op op s))
  end.

Definition is_result (h : list HObj) (r : addr) : bool :=
  match h !! r with Some (OResult _ _ _) => true | _ => false end.

(** No succeeding Result of [h] has the array at [a] as its [errors]. *)
Definition unowned (h : list HObj) (a : addr) : bool :=
  forallb (fun o => match o with
                    | OResult true (VRef a') _ => negb (Nat.eqb a' a)
                    | _ => true
                    end) h.

(** The argument of [fail] is admissible when it is not an array that a
    succeeding Result already holds as its [errors]; under [strict] it is
    moreover neither omitted nor an empty array. *)
Definition fail_legal (strict : bool) (h : list HObj) (errors : JsVal) : bool :=
  match errors with
  | VUndefined => negb strict
  | VRef a =>
      match h !! a with
      | Some (OArray elems) =>
          unowned h a
          && (negb strict || match elems with [] => false | _ => true end)
      | _ => true
      end
  | _ => true
  end.

(** Methods are called on Results, and [merge] is given a Result. *)
Definition legal (strict : bool) (h : list HObj) (op : Op) : bool :=
  match op with
  | OpOk _ => true
  | OpFail errors => fail_legal strict h errors
  | OpAddError this _ => is_result h this
  | OpMerge this other => is_result h this && is_result h other
  | OpMap this _ => is_result h this
  | OpFlatMap this _ => is_result h this
  end.

Fixpoint legal_run `{Host} (strict : bool) (ops : list Op) (s : State) : Prop :=
  match ops with
  | [] => True
  | op :: rest =>
      legal strict (heap s) op = true
      /\ legal_run strict rest (final (run_op op s))
  end.

(** The Result stored at [r] has failed. *)
Definition failed_at (h : list HObj) (r : addr) : Prop :=
  exists e val, h !! r = Some (OResult false e val).

(** The state of the Results of a store: each holds an array as its
    [errors]; the array of a succeeding Result is empty and is held by no
    other Result; under [strict], the array of a failed Result is not
    empty. *)
Record Inv (strict : bool) (h : list HObj) : Prop := {
  inv_wf : forall r b e val,
    h !! r = Some (OResult b e val) ->
    exists a errs, e = VRef a /\ h !! a = Some (OArray errs);
  inv_valid : forall r a val,
    h !! r = Some (OResult true (VRef a) val) ->
    h !! a = Some (OArray [])
    /\ forall r' b' val', h !! r' = Some (OResult b' (VRef a) val') -> r' = r;
  inv_failed : strict = true -> forall r a val,
    h !! r = Some (OResult false (VRef a) val) ->
    exists errs, h !! a = Some (OArray errs) /\ errs <> []
}.

(** What is asked of the callbacks handed to [map] and [flatMap]: whether
    they return or throw, they keep the Results of the store in order and
    revive none that has failed. *)
Definition callbacks_respect `{Host} (strict : bool) : Prop :=
  forall id arg h,
    Inv strict h ->
    Inv strict (final (fun_body id arg h))
    /\ forall r, failed_at h r -> failed_at (final (fun_body id arg h)) r.

(** ** Method calls on a returned value, rule insertion, type tags *)

Section Chains.
Context `{Host}.

(** [x.map(fn)] and [x.flatMap(fn)] for a value [x] that came out of an
    earlier call, as in [isNumber(v).flatMap(f).flatMap(g)]: the method of a
    Result; on anything else the member of that name is read and called. *)
Definition invoke_map (x fn : JsVal) : M JsVal :=
  fun s => match x with
           | VRef a =>
               match heap s !! a with
               | Some (OResult _ _ _) => ValidationResult.map a fn s
               | _ => (m <- get x "map";; call_method m x fn) s
               end
           | _ => (m <- get x "map";; call_method m x fn) s
           end.

Definition invoke_flatMap (x fn : JsVal) : M JsVal :=
  fun s => match x with
           | VRef a =>
               match heap s !! a with
               | Some (OResult _ _ _) => ValidationResult.flatMap a fn s
               | _ => (m <- get x "flatMap";; call_method m x fn) s
               end
           | _ => (m <- get x "flatMap";; call_method m x fn) s
           end.
End Chains.

(** [obj[key] = v] on the own properties of an ordinary object: an existing
    key keeps its place and takes the new value, a new key goes last. *)
Fixpoint set_own (key : string) (v : JsVal) (props : list (string * JsVal))
    : list (string * JsVal) :=
  match props with
  | [] => [(key, v)]
  | (k, x) :: rest =>
      if String.eqb k key then (k, v) :: rest
      else (k, x) :: set_own key v rest
  end.

Section AddRule.
Context `{Host}.

(** [obj[key] = v] on the ordinary object at [a], whose own properties are
    [props].  Ordinary objects inherit one accessor, [__proto__]: unless the
    object has an own property of that name the assignment runs the
    inherited setter, which does nothing when [v] is neither an object nor
    [null] and otherwise replaces the prototype of the object, which the
    store does not hold ([None]).  Every other key becomes or updates an own
    property. *)
Definition put_own (a : addr) (props : list (string * JsVal))
    (key : string) (v : JsVal) (s : State) : option State :=
  if String.eqb key "__proto__"
     && match assoc key props with Some _ => false | None => true end
  then
    match v with
    | VNull | VFun _ | VRef _ => None
    | _ => Some s
    end
  else Some (mkState (<[a:=OPlain (set_own key v props)]> (heap s)) (calls s)).

(** [addRule(fieldName, validator)]: [this.rules[fieldName] = validator;
    return this].  A [this.rules] that is [undefined] or [null] raises a
    TypeError before anything else happens; then [fieldName] is converted to
    a property key; then the assignment is made, which in the strict code of
    a module raises a TypeError on a primitive.  The result is [None] when
    [this.rules] is an array, a function or a class instance: the store does
    not hold the further own properties the assignment would give such an
    object. *)
Definition addRule (this : addr) (fieldName validator : JsVal)
    : State -> option (Outcome State JsVal) :=
  fun s =>
    match Get (heap s) (VRef this) "rules" with
    | None | Some VUndefined | Some VNull => Some (Throw ExnTypeError s)
    | Some rules =>
        match ToString fieldName s with
        | Throw ex s1 => Some (Throw ex s1)
        | Ret key s1 =>
            match rules with
            | VRef a =>
                match heap s1 !! a with
                | Some (OPlain props) =>
                    match put_own a props key validator s1 with
                    | Some s2 => Some (Ret (VRef this) s2)
                    | None => None
                    end
                | _ => None
                end
            | VFun _ => None
            | _ => Some (Throw ExnTypeError s1)
            end
        end
    end.
End AddRule.

(** [src/type-checkers.js], [isType(value, type)]. *)
Definition isType (h : list HObj) (value type : JsVal) : bool :=
  if strict_equals type (VStr "null") then strict_equals value VNull
  else if strict_equals type (VStr "undefined")
       then strict_equals value VUndefined
  else if strict_equals type (VStr "array") then Array_isArray h value
  else if strict_equals type (VStr "object")
       then negb (strict_equals value VNull)
            && String.eqb (typeof value) "object"
            && negb (Array_isArray h value)
  else strict_equals (VStr (typeof value)) type.

(** The errors the failing Results among [others] hold, in order. *)
Definition failing_errors (h : list HObj) (others : list addr) : list JsVal :=
  flat_map (fun o =>
              match h !! o with
              | Some (OResult false (VRef eo) _) =>
                  match h !! eo with Some (OArray l) => l | _ => [] end
              | _ => []
              end) others.

(** Every Result among [others] succeeds. *)
Definition all_valid (h : list HObj) (others : list addr) : bool :=
  forallb (fun o => match h !! o with
                    | Some (OResult false _ _) => false
                    | _ => true
                    end) others.

(** [o] is a Result other than [this] whose error array is not [e]. *)
Definition mergeable (h : list HObj) (this e o : addr) : Prop :=
  o <> this /\
  exists vo eo valo oerrs,
    h !! o = Some (OResult vo (VRef eo) valo) /\
    eo <> e /\ h !! eo = Some (OArray oerrs).

(** A callback that computes [F] of its argument and has no effect. *)
Definition pure_fn `{Host} (id : nat) (F : JsVal -> JsVal) : Prop :=
  forall arg h, fun_body id arg h = Ret (F arg) h.

(** The outcome of a validator on [value] in [s]: a fresh success wrapping
    [value] itself, or a fresh failure with a single message. *)
Definition accepts_or_rejects (s : State) (value : JsVal)
    (o : Outcome State JsVal) : Prop :=
  o = returned_ok s value \/ exists msg, o = returned_fail s (VStr msg).

(** The field validators that can serve as a rule as they are and never
    convert the value to a string: [validate] calls a rule with the value
    alone, so [isRequired] runs with its default field name.  [isPort] is
    left out, for it converts the value and raises what the conversion
    raises; so is [isOneOf], which needs its second argument. *)
Definition rule_validators `{Host} `{Patterns} : list (JsVal -> M JsVal) :=
  [FieldValidators.isUUID; FieldValidators.isEmail;
   (fun value => FieldValidators.isRequired value VUndefined);
   FieldValidators.isString; FieldValidators.isNumber;
   FieldValidators.isBoolean; FieldValidators.isArray;
   FieldValidators.isObject; FieldValidators.isURL;
   FieldValidators.isIdentifier].

(** Calling [fn] on [x] raises [ex] in every store: [fn] is not a function,
    or it is one that throws [ex]. *)
Definition raises `{Host} (fn x : JsVal) (ex : JsExn) : Prop :=
  match fn with
  | VFun id => forall h, exists h', fun_body id x h = Throw ex h'
  | _ => ex = ExnTypeError
  end.

(** The record of the call of [fn] on [x] that raised. *)
Definition raised_call (fn x : JsVal) : list (nat * JsVal * option JsVal) :=
  match fn with VFun id => [(id, x, None)] | _ => [] end.

(** A host of callbacks without effect: function 0 appends "a" to a string,
    function 1 appends "b", function 2 does the one after the other; every
    other index returns its argument. *)
Definition append_to (suffix : string) (x : JsVal) : JsVal :=
  match x with VStr str => VStr (str +:+ suffix) | _ => x end.

Definition pure_host : Host := {|
  fun_method id this arg h :=
    match id with
    | 0 => Ret (append_to "a" arg) h
    | 1 => Ret (append_to "b" arg) h
    | 2 => Ret (append_to "b" (append_to "a" arg)) h
    | _ => Ret arg h
    end;
  NumberToString := sample_number_to_string;
  inherited _ _ := VUndefined
|}.

(** What a primitive element contributes to a [join]. *)
Definition join_piece `{Host} (x : JsVal) : string :=
  match x with
  | VUndefined | VNull => ""
  | _ => primitive_to_string x
  end.

(** ** Reasoning support *)

Ltac unfold_m :=
  unfold bind, ret, throw, get, get_heap, alloc, store, push, spread,
    call, final in *.

Section ResultLaws.
Context `{Host}.
Import ValidationResult.

Lemma lookup_snoc_eq (h : list HObj) (o : HObj) :
  (h ++ [o]) !! length h = Some o.
Proof. now rewrite list_lookup_middle. Qed.

Lemma ok_returns (value : JsVal) (s : State) :
  ok value s = returned_ok s value.
Proof.
  unfold ok, new, set_value, returned_ok. unfold_m. cbn [heap calls].
  rewrite length_app. cbn [length].
  replace (length (heap s) + 1) with (S (length (heap s))) by lia.
  replace (S (length (heap s)))
    with (length (heap s ++ [OArray []])) at 1 2
    by (rewrite length_app; cbn; lia).
  rewrite lookup_snoc_eq. cbn [heap calls].
  rewrite length_app. cbn [length].
  replace (length (heap s) + 1) with (S (length (heap s))) by lia.
  do 2 f_equal.
  replace (S (length (heap s)))
    with (length (heap s ++ [OArray []]) + 0)
    by (rewrite length_app; cbn; lia).
  rewrite insert_app_r. cbn. now rewrite <- app_assoc.
Qed.

Lemma fail_returns (error : JsVal) (s : State) :
  error <> VUndefined -> Array_isArray (heap s) error = false ->
  fail error s = returned_fail s error.
Proof.
  intros Hu Harr. unfold fail, new, returned_fail. unfold_m.
  destruct error; try congruence; cbn [heap calls]; rewrite ?Harr;
    cbn [heap calls]; rewrite length_app; cbn [length];
    replace (length (heap s) + 1) with (S (length (heap s))) by lia;
    now rewrite <- app_assoc.
Qed.

Lemma fail_string (msg : string) (s : State) :
  fail (VStr msg) s = returned_fail s (VStr msg).
Proof. now apply fail_returns. Qed.

Lemma fail_array (a : addr) (elems : list JsVal) (s : State) :
  heap s !! a = Some (OArray elems) ->
  fail (VRef a) s
  = Ret (VRef (length (heap s)))
        (mkState (heap s ++ [OResult false (VRef a) None]) (calls s)).
Proof.
  intros Ha. unfold fail, new. unfold_m. cbn [heap calls Array_isArray].
  now rewrite Ha.
Qed.

Lemma fail_default (s : State) :
  fail VUndefined s
  = Ret (VRef (S (length (heap s))))
        (mkState (heap s ++ [OArray [];
                             OResult false (VRef (length (heap s))) None])
                 (calls s)).
Proof.
  unfold fail, new. unfold_m. cbn [heap calls Array_isArray].
  rewrite lookup_snoc_eq. cbn [heap calls].
  rewrite length_app. cbn [length].
  replace (length (heap s) + 1) with (S (length (heap s))) by lia.
  now rewrite <- app_assoc.
Qed.



Lemma ToString_primitive (v : JsVal) (s : State) :
  is_primitive v = true -> ToString v s = Ret (primitive_to_string v) s.
Proof.
  intros Hp. unfold ToString, ToPrimitive. rewrite Hp. reflexivity.
Qed.

Lemma join_piece_primitive (x : JsVal) (s : State) :
  is_primitive x = true -> element_to_string x s = Ret (join_piece x) s.
Proof.
  intros Hp. unfold element_to_string.
  destruct x; try reflexivity; try discriminate;
    now rewrite ToString_primitive.
Qed.

Lemma join_from_primitives (a : addr) (s : State) (elems : list JsVal) :
  heap s !! a = Some (OArray elems) ->
  forall rest pre pieces,
    elems = pre ++ rest ->
    Forall (fun x => is_primitive x = true) rest ->
    join_from a (length pre) (length rest) pieces s
    = Ret (pieces ++ List.map join_piece rest) s.
Proof.
  intros Ha. induction rest as [|x rest IH]; intros pre pieces Hel Hall.
  - cbn. now rewrite app_nil_r.
  - inversion Hall as [|? ? Hx Hrest]; subst.
    cbn [length join_from]. unfold bind at 1, get_heap.
    unfold element_at. rewrite Ha.
    rewrite list_lookup_middle by reflexivity.
    unfold bind. rewrite (join_piece_primitive x s Hx).
    specialize (IH (pre ++ [x]) (pieces ++ [join_piece x])).
    rewrite length_app in IH. cbn [length] in IH.
    replace (length pre + 1) with (S (length pre)) in IH by lia.
    rewrite IH; [|now rewrite <- app_assoc|assumption].
    cbn [List.map]. now rewrite <- app_assoc.
Qed.

Lemma Array_join_primitives (a : addr) (s : State) (elems : list JsVal)
    (sep : string) :
  heap s !! a = Some (OArray elems) ->
  Forall (fun x => is_primitive x = true) elems ->
  Array_join a sep s = Ret (String.concat sep (List.map join_piece elems)) s.
Proof.
  intros Ha Hall. unfold Array_join. rewrite Ha. unfold bind.
  pose proof (join_from_primitives a s elems Ha elems [] [] eq_refl Hall)
    as Hj.
  cbn [length app] in Hj. now rewrite Hj.
Qed.

Lemma join_piece_strings (msgs : list string) :
  List.map join_piece (List.map VStr msgs) = msgs.
Proof.
  induction msgs as [|m msgs IH]; [reflexivity|]. cbn. now rewrite IH.
Qed.

Lemma Array_join_strings (a : addr) (s : State) (msgs : list string)
    (sep : string) :
  heap s !! a = Some (OArray (List.map VStr msgs)) ->
  Array_join a sep s = Ret (String.concat sep msgs) s.
Proof.
  intros Ha. rewrite (Array_join_primitives a s _ sep Ha).
  - now rewrite join_piece_strings.
  - apply Forall_forall. intros x Hx. apply list_elem_of_In in Hx.
    apply in_map_iff in Hx as (m & <- & _). reflexivity.
Qed.

(** [errors.join(', ')] followed by the conversion of the template literal,
    on the array at [a]. *)
Lemma join_then_ToString (a : addr) (elems : list JsVal) (sep : string)
    (s : State) :
  heap s !! a = Some (OArray elems) ->
  (joined <- join (VRef a) sep;; ToString joined) s = Array_join a sep s.
Proof.
  intros Ha. unfold join, bind. rewrite Ha.
  destruct (Array_join a sep s) as [joined s1|ex s1]; [|reflexivity].
  unfold ret. now rewrite ToString_primitive.
Qed.

Lemma map_failing (this : addr) (fn : JsVal) (s : State)
    (errors : JsVal) (value : option JsVal) :
  heap s !! this = Some (OResult false errors value) ->
  map this fn s = Ret (VRef this) s.
Proof. intros Hthis. unfold map. unfold_m. simpl. now rewrite Hthis. Qed.

Lemma flatMap_failing (this : addr) (fn : JsVal) (s : State)
    (errors : JsVal) (value : option JsVal) :
  heap s !! this = Some (OResult false errors value) ->
  flatMap this fn s = Ret (VRef this) s.
Proof. intros Hthis. unfold flatMap. unfold_m. simpl. now rewrite Hthis. Qed.

(** C1.  On a failing Result [map] and [flatMap] hand back the receiver
    itself and leave the whole state as it was: the returned Result has
    [isValid] false and the errors of the receiver, and the record of
    callback invocations has not grown, whatever [fn] is (a function that
    throws, or no function at all). *)
Theorem map_flatMap_failing (this : addr) (fn : JsVal) (s : State)
    (errors : JsVal) (value : option JsVal) :
  heap s !! this = Some (OResult false errors value) ->
  map this fn s = Ret (VRef this) s /\
  flatMap this fn s = Ret (VRef this) s /\
  heap (final (map this fn s)) !! this = Some (OResult false errors value) /\
  heap (final (flatMap this fn s)) !! this
    = Some (OResult false errors value) /\
  calls (final (map this fn s)) = calls s /\
  calls (final (flatMap this fn s)) = calls s.
Proof.
  intros Hthis.
  assert (Hm : map this fn s = Ret (VRef this) s).
  { unfold map. unfold_m. simpl. rewrite Hthis. reflexivity. }
  assert (Hf : flatMap this fn s = Ret (VRef this) s).
  { unfold flatMap. unfold_m. simpl. rewrite Hthis. reflexivity. }
  rewrite Hm, Hf. simpl. repeat split; assumption.
Qed.

Lemma merge_failing (this other : addr) (s : State)
    (v : bool) (e eo : addr) (errs oerrs : list JsVal)
    (val valo : option JsVal) :
  heap s !! this = Some (OResult v (VRef e) val) ->
  heap s !! e = Some (OArray errs) ->
  heap s !! other = Some (OResult false (VRef eo) valo) ->
  heap s !! eo = Some (OArray oerrs) ->
  exists s',
    merge this (VRef other) s = Ret (VRef this) s' /\
    heap s' !! this = Some (OResult false (VRef e) val) /\
    heap s' !! e = Some (OArray (errs ++ oerrs)) /\
    (forall a, a <> this -> a <> e -> heap s' !! a = heap s !! a) /\
    calls s' = calls s.
Proof.
  intros Hthis He Hother Heo.
  assert (Hlt : this < length (heap s)) by (eapply lookup_lt_Some; eauto).
  assert (Hne : e <> this) by (intros ->; congruence).
  assert (Hneo : eo <> this) by (intros ->; congruence).
  unfold merge, set_invalid. unfold_m. simpl. rewrite Hother. simpl.
  rewrite Hthis. simpl.
  rewrite list_lookup_insert_eq by assumption. simpl.
  assert (Ho' : <[this:=OResult false (VRef e) val]> (heap s) !! other
                = Some (OResult false (VRef eo) valo)).
  { destruct (decide (other = this)) as [->|Hd].
    - rewrite list_lookup_insert_eq by assumption.
      rewrite Hthis in Hother. congruence.
    - rewrite list_lookup_insert_ne by congruence. assumption. }
  rewrite Ho'. cbn [heap calls].
  rewrite (list_lookup_insert_ne _ this eo) by congruence. rewrite Heo.
  cbn [heap calls].
  rewrite (list_lookup_insert_ne _ this e) by congruence. rewrite He.
  eexists. split; [reflexivity|]. cbn [heap calls].
  repeat split.
  - rewrite list_lookup_insert_ne by congruence.
    now rewrite list_lookup_insert_eq.
  - rewrite list_lookup_insert_eq; [reflexivity|].
    rewrite length_insert. eapply lookup_lt_Some; eauto.
  - intros a Ha1 Ha2.
    rewrite list_lookup_insert_ne by congruence.
    now rewrite list_lookup_insert_ne by congruence.
Qed.

Lemma merge_passing (this other : addr) (s : State) (eo : JsVal)
    (valo : option JsVal) :
  heap s !! other = Some (OResult true eo valo) ->
  merge this (VRef other) s = Ret (VRef this) s.
Proof.
  intros Hother. unfold merge. unfold_m. simpl. now rewrite Hother.
Qed.

Lemma addError_effect (this : addr) (error : JsVal) (s : State)
    (v : bool) (e : addr) (errs : list JsVal) (val : option JsVal) :
  heap s !! this = Some (OResult v (VRef e) val) ->
  heap s !! e = Some (OArray errs) ->
  exists s',
    addError this error s = Ret (VRef this) s' /\
    heap s' !! this = Some (OResult false (VRef e) val) /\
    heap s' !! e = Some (OArray (errs ++ [error])) /\
    (forall a, a <> this -> a <> e -> heap s' !! a = heap s !! a) /\
    calls s' = calls s.
Proof.
  intros Hthis He.
  assert (Hlt : this < length (heap s)) by (eapply lookup_lt_Some; eauto).
  assert (Hlte : e < length (heap s)) by (eapply lookup_lt_Some; eauto).
  assert (Hne : e <> this) by (intros ->; congruence).
  unfold addError, set_invalid. unfold_m. simpl. rewrite Hthis. simpl.
  rewrite He. cbn [heap calls].
  rewrite (list_lookup_insert_ne _ e this) by congruence. rewrite Hthis.
  eexists. split; [reflexivity|]. cbn [heap calls].
  repeat split.
  - rewrite list_lookup_insert_eq; [reflexivity|].
    now rewrite length_insert.
  - rewrite list_lookup_insert_ne by congruence.
    now rewrite list_lookup_insert_eq.
  - intros a Ha1 Ha2.
    rewrite list_lookup_insert_ne by congruence.
    now rewrite list_lookup_insert_ne by congruence.
Qed.

(** C2.  [merge] with a failing [other] turns the receiver into a failure
    whose error array holds the receiver's former errors followed by the
    errors of [other], in order, and touches no other cell; with a
    succeeding [other] the state is left as it was.  The receiver may be
    [other] itself and the two may share their error array. *)
Theorem merge_spec (this other : addr) (s : State)
    (v vo : bool) (e eo : addr) (errs oerrs : list JsVal)
    (val valo : option JsVal) :
  heap s !! this = Some (OResult v (VRef e) val) ->
  heap s !! e = Some (OArray errs) ->
  heap s !! other = Some (OResult vo (VRef eo) valo) ->
  heap s !! eo = Some (OArray oerrs) ->
  if vo then merge this (VRef other) s = Ret (VRef this) s
  else exists s',
    merge this (VRef other) s = Ret (VRef this) s' /\
    heap s' !! this = Some (OResult false (VRef e) val) /\
    heap s' !! e = Some (OArray (errs ++ oerrs)) /\
    (forall a, a <> this -> a <> e -> heap s' !! a = heap s !! a) /\
    calls s' = calls s.
Proof.
  intros Hthis He Hother Heo. destruct vo.
  - eapply merge_passing; eauto.
  - eapply merge_failing; eauto.
Qed.

(** C4.  [getOrThrow] returns the value of a succeeding Result and leaves
    the state alone.  On a failing Result it joins the errors with ", ":
    when the join returns, it throws an [Error] whose message is
    "Validation failed: " followed by the joined errors; when the conversion
    of an error to a string throws, that exception escapes.  The join
    returns, without effect, whenever no error is an object; for errors that
    are strings it is their plain concatenation with the separator. *)
Theorem getOrThrow_spec (this : addr) (s : State) (v : bool) (e : addr)
    (errs : list JsVal) (val : option JsVal) :
  heap s !! this = Some (OResult v (VRef e) val) ->
  heap s !! e = Some (OArray errs) ->
  getOrThrow this s
  = (if v then Ret (default VUndefined val) s
     else match Array_join e ", " s with
          | Ret joined s1 =>
              Throw (ExnError ("Validation failed: " +:+ joined)) s1
          | Throw ex s1 => Throw ex s1
          end) /\
  (Forall (fun x => is_primitive x = true) errs ->
     Array_join e ", " s
     = Ret (String.concat ", " (List.map join_piece errs)) s) /\
  (forall msgs, errs = List.map VStr msgs ->
     Array_join e ", " s = Ret (String.concat ", " msgs) s).
Proof.
  intros Hthis He. split; [|split].
  - unfold getOrThrow. unfold bind at 1. unfold get. cbn [Get].
    rewrite Hthis. cbn [String.eqb Ascii.eqb Bool.eqb ToBoolean negb].
    destruct v; cbn [negb].
    + unfold get. cbn [Get]. rewrite Hthis. reflexivity.
    + unfold bind at 1. unfold get. cbn [Get]. rewrite Hthis.
      cbn [String.eqb Ascii.eqb Bool.eqb].
      pose proof (join_then_ToString e errs ", " s He) as Hj.
      unfold bind in Hj |- *.
      destruct (join (VRef e) ", " s) as [joined s1|ex s1].
      * rewrite Hj. destruct (Array_join e ", " s); reflexivity.
      * now rewrite <- Hj.
  - intros Hall. now apply Array_join_primitives.
  - intros msgs ->. now apply Array_join_strings.
Qed.
End ResultLaws.

Section FieldLaws.
Context `{Host} `{Patterns}.
Import ValidationResult FieldValidators.

Lemma ToString_string (str : string) (s : State) :
  ToString (VStr str) s = Ret str s.
Proof. reflexivity. Qed.

Lemma isRequired_present (value fieldName : JsVal) (s : State) :
  (strict_equals value VNull || strict_equals value VUndefined
   || strict_equals value (VStr "")) = false ->
  isRequired value fieldName s = returned_ok s value.
Proof. intros Hv. unfold isRequired. rewrite Hv. apply ok_returns. Qed.

Lemma isRequired_missing (value fieldName : JsVal) (s : State) :
  (strict_equals value VNull || strict_equals value VUndefined
   || strict_equals value (VStr "")) = true ->
  isRequired value fieldName s
  = match ToString match fieldName with
                   | VUndefined => VStr "Value"
                   | _ => fieldName
                   end s with
    | Ret name s1 => returned_fail s1 (VStr (name +:+ " is required"))
    | Throw ex s1 => Throw ex s1
    end.
Proof.
  intros Hv. unfold isRequired. rewrite Hv. unfold bind.
  destruct (ToString _ s) as [name s1|ex s1]; [apply fail_string|reflexivity].
Qed.



Lemma isPort_eq (value : JsVal) (s : State) :
  isPort value s
  = match ToString value s with
    | Ret str s1 =>
        if PORT str then returned_ok s1 value
        else returned_fail s1
               (VStr "Value is not a valid port number (0-65535)")
    | Throw ex s1 => Throw ex s1
    end.
Proof.
  unfold isPort, test. unfold bind at 1.
  destruct (ToString value s) as [str s1|ex s1]; [|reflexivity].
  unfold bind. rewrite ToString_string. unfold ret.
  destruct (PORT str); cbn [negb]; [apply ok_returns|apply fail_string].
Qed.


Lemma isOneOf_array_eq (value : JsVal) (a : addr) (elems : list JsVal)
    (s : State) :
  heap s !! a = Some (OArray elems) ->
  isOneOf value (VRef a) s
  = if existsb (fun y => same_value_zero y value) elems
    then returned_ok s value
    else match Array_join a ", " s with
         | Ret joined s1 =>
             returned_fail s1 (VStr ("Value must be one of: " +:+ joined))
         | Throw ex s1 => Throw ex s1
         end.
Proof.
  intros Ha. unfold isOneOf. unfold bind at 1. unfold includes.
  rewrite Ha. cbn [ToBoolean].
  destruct (existsb (fun y => same_value_zero y value) elems); cbn [negb].
  - apply ok_returns.
  - pose proof (join_then_ToString a elems ", " s Ha) as Hj.
    unfold bind in Hj |- *.
    destruct (join (VRef a) ", " s) as [joined s1|ex s1].
    + rewrite Hj.
      destruct (Array_join a ", " s); [apply fail_string|reflexivity].
    + now rewrite <- Hj.
Qed.


(** C8.  [isRequired] succeeds, wrapping the value it was given, on every
    value other than [null], [undefined] and the empty string, [0] and
    [false] among them.  On these three it converts the field name to a
    string: an omitted field name reads 'Value', a string is taken as it is,
    and the failure carries the single message "<fieldName> is required";
    any other field name goes through [ToString], and when that conversion
    throws, so does [isRequired]. *)
Theorem isRequired_spec (value fieldName : JsVal) (s : State) :
  isRequired value fieldName s
  = match value with
    | VNull | VUndefined | VStr EmptyString =>
        match fieldName with
        | VUndefined => returned_fail s (VStr "Value is required")
        | VStr f => returned_fail s (VStr (f +:+ " is required"))
        | other =>
            match ToString other s with
            | Ret name s1 =>
                returned_fail s1 (VStr (name +:+ " is required"))
            | Throw ex s1 => Throw ex s1
            end
        end
    | _ => returned_ok s value
    end.
Proof.
  destruct value as [| |b|x|str|id|a];
    try (apply isRequired_present; reflexivity);
    try (rewrite isRequired_missing by reflexivity;
         destruct fieldName; reflexivity).
  destruct str as [|c str].
  - rewrite isRequired_missing by reflexivity.
    destruct fieldName; reflexivity.
  - apply isRequired_present. reflexivity.
Qed.

(** C9.  [isNumber] succeeds, wrapping the value it was given, exactly on
    the numbers other than NaN, the two infinities included; it fails on
    NaN and on every value that is not a number. *)
Theorem isNumber_spec (value : JsVal) (s : State) :
  isNumber value s
  = match value with
    | VNum S754_nan => returned_fail s (VStr "Value must be a number")
    | VNum _ => returned_ok s value
    | _ => returned_fail s (VStr "Value must be a number")
    end.
Proof.
  unfold isNumber.
  destruct value as [| |b|x|str|id|a]; cbn; try apply fail_string.
  destruct x; cbn; try apply ok_returns. apply fail_string.
Qed.

(** C10.  [isPort] converts the value to its string form and matches that
    string against the port pattern; on a match the fresh succeeding Result
    wraps the value as it was given, whatever its type, and without a match
    the Result fails.  The string form is what [String(value)] returns,
    which for an object runs its [toString]; when that throws there is no
    string form and the exception escapes.  A value that is not an object
    is converted without effect. *)
Theorem isPort_spec (value : JsVal) (s : State) :
  isPort value s
  = match ToString value s with
    | Ret str s1 =>
        if PORT str then returned_ok s1 value
        else returned_fail s1
               (VStr "Value is not a valid port number (0-65535)")
    | Throw ex s1 => Throw ex s1
    end /\
  (is_primitive value = true ->
   ToString value s = Ret (primitive_to_string value) s).
Proof.
  split; [|apply ToString_primitive].
  unfold isPort, test. unfold bind at 1.
  destruct (ToString value s) as [str s1|ex s1]; [|reflexivity].
  unfold bind. rewrite ToString_string. unfold ret.
  destruct (PORT str); cbn [negb]; [apply ok_returns|apply fail_string].
Qed.
End FieldLaws.

Section SchemaLaws.
Context `{Host}.
Import ValidationResult SchemaValidator.

(** C6.  The standalone [validateSchema] is the construction of a schema
    validator from the rule mapping followed by one call of its
    [validate]: same returned Result or same exception, same final state.
    The validator constructed holds the rule mapping it was given, or a
    fresh empty object when none was given. *)
Theorem validateSchema_equiv (data ruleMapping : JsVal) (s : State) :
  validateSchema data ruleMapping s
  = construct_then_validate data ruleMapping s /\
  validateSchema data ruleMapping s
  = match ruleMapping with
    | VUndefined =>
        validate (S (length (heap s))) data
          (mkState (heap s ++ [OPlain [];
                               OSchemaValidator (VRef (length (heap s)))])
                   (calls s))
    | _ =>
        validate (length (heap s)) data
          (mkState (heap s ++ [OSchemaValidator ruleMapping]) (calls s))
    end.
Proof.
  split; [reflexivity|].
  unfold validateSchema, SchemaValidator.new.
  destruct ruleMapping; try reflexivity.
  unfold bind, alloc, ret. cbn [heap calls].
  rewrite length_app, <- app_assoc. cbn [length app].
  now replace (length (heap s) + 1) with (S (length (heap s))) by lia.
Qed.

Lemma frame_refl errors h : frame errors h h.
Proof. split; auto. Qed.

Lemma frame_trans errors h1 h2 h3 :
  frame errors h1 h2 -> frame errors h2 h3 -> frame errors h1 h3.
Proof.
  intros [L1 F1] [L2 F2]. split; [lia|].
  intros a Ha Hne. rewrite F2 by (auto; lia). now apply F1.
Qed.

Lemma frame_app errors (h new : list HObj) : frame errors h (h ++ new).
Proof.
  split; [rewrite length_app; lia|].
  intros a Ha _. now apply lookup_app_l.
Qed.

Lemma frame_insert errors (h : list HObj) (o : HObj) :
  frame errors h (<[errors:=o]> h).
Proof.
  split; [now rewrite length_insert|].
  intros a _ Hne. now apply list_lookup_insert_ne.
Qed.

Lemma Get_frame errors h h' data key :
  frame errors h h' -> valid_ref h data -> data <> VRef errors ->
  Get h' data key = Get h data key.
Proof.
  intros [_ F] Hv Hne. destruct data; cbn in *; try reflexivity.
  rewrite F; [reflexivity|assumption|congruence].
Qed.

Lemma invocations_frame errors h h' data rules outs :
  frame errors h h' -> valid_ref h data -> data <> VRef errors ->
  invocations h' data rules outs = invocations h data rules outs.
Proof.
  intros F Hv Hne. unfold invocations.
  revert outs. induction rules as [|kv rules IH]; intros [|o outs];
    cbn; try reflexivity.
  rewrite IH. now rewrite (Get_frame errors h h').
Qed.

Lemma valid_ref_frame errors h h' data :
  frame errors h h' -> valid_ref h data -> valid_ref h' data.
Proof. intros [L _]. destruct data; cbn; auto. lia. Qed.

Lemma Get_some h data key :
  data <> VUndefined -> data <> VNull ->
  Get h data key = Some (default VUndefined (Get h data key)).
Proof. destruct data; cbn; congruence. Qed.

Lemma validate_loop_spec (errors : addr) (data : JsVal)
    (rules : list (string * JsVal)) :
  Forall (fun kv => validator_fn (snd kv)) rules ->
  data <> VUndefined -> data <> VNull -> data <> VRef errors ->
  forall s acc,
    heap s !! errors = Some (OArray acc) ->
    valid_ref (heap s) data ->
    exists s' outs recs,
      validate_loop (VRef errors) data rules s = Ret tt s' /\
      frame errors (heap s) (heap s') /\
      heap s' !! errors = Some (OArray (acc ++ List.map VRef recs)) /\
      calls s' = calls s ++ invocations (heap s) data rules outs /\
      length outs = length rules /\
      Forall (fun r => exists b e val,
                heap s' !! r = Some (OResult b e val)) outs /\
      Forall2 (record_of (heap s'))
              (failing (heap s') (zip (List.map fst rules) outs)) recs.
Proof.
  intros Hrules Hu Hn Hne.
  induction Hrules as [|[k fn] rules Hfn _ IH]; intros s acc Herr Hv.
  - exists s, [], []. cbn. rewrite !app_nil_r.
    repeat split; auto using frame_refl.
  - cbn [snd] in Hfn. destruct Hfn as (id & Hid & Hbody). subst fn.
    set (x := default VUndefined (Get (heap s) data k)).
    destruct (Hbody x (heap s)) as (r & new & b & e & val & Hcall & Hr).
    assert (Herr_lt : errors < length (heap s))
      by (eapply lookup_lt_Some; eauto).
    assert (Herr1 : (heap s ++ new) !! errors = Some (OArray acc))
      by (rewrite lookup_app_l; auto).
    assert (Hre : r <> errors) by (intros ->; congruence).
    assert (Hr_lt : r < length (heap s ++ new))
      by (eapply lookup_lt_Some; eauto).
    cbn [validate_loop]. unfold bind at 1. unfold get at 1.
    rewrite (Get_some _ _ _ Hu Hn). fold x.
    unfold bind at 1. unfold call at 1. cbn [snd]. rewrite Hcall.
    unfold bind at 1. unfold get at 1. cbn [heap Get]. rewrite Hr.
    cbn [String.eqb Ascii.eqb Bool.eqb ToBoolean].
    destruct b; cbn [negb].
    + (* the field passes *)
      set (s1 := mkState (heap s ++ new) (calls s ++ [(id, x, Some (VRef r))])).
      destruct (IH s1 acc Herr1) as (s' & outs & recs & Hrun & F & He & Hc & Hl & Ho & Hrec).
      { eapply valid_ref_frame; [apply (frame_app errors)|exact Hv]. }
      exists s', (r :: outs), recs.
      assert (Hr' : heap s' !! r = Some (OResult true e val)).
      { destruct F as [_ F]. rewrite F; auto. }
      unfold bind at 1. unfold ret at 1. fold s1. rewrite Hrun.
      split; [reflexivity|]. split.
      { eapply frame_trans; [apply (frame_app errors _ new)|exact F]. }
      split; [exact He|]. split.
      { rewrite Hc. cbn [calls s1]. rewrite <- app_assoc. f_equal.
        cbn [invocations zip_with app fst snd fn_index]. fold x. f_equal.
        apply (invocations_frame errors); auto.
        apply (frame_app errors (heap s) new). }
      split; [cbn; lia|]. split.
      { constructor; eauto. }
      cbn [List.map zip zip_with fst]. unfold failing. cbn [List.filter snd].
      unfold valid_at at 1. rewrite Hr'. cbn [negb]. exact Hrec.
    + (* the field fails *)
      unfold bind at 1. unfold bind at 1. unfold get at 1. cbn [heap Get].
      rewrite Hr. cbn [String.eqb Ascii.eqb Bool.eqb].
      unfold bind at 1. unfold alloc at 1. cbn [heap calls].
      unfold push. cbn [heap calls].
      rewrite (lookup_app_l (heap s ++ new)) by (rewrite length_app; lia).
      rewrite Herr1.
      set (n1 := length (heap s ++ new)).
      set (rec := OPlain [("field", VStr k); ("errors", e)]).
      set (s2 := mkState (<[errors:=OArray (acc ++ [VRef n1])]>
                            ((heap s ++ new) ++ [rec]))
                         (calls s ++ [(id, x, Some (VRef r))])).
      assert (F2 : frame errors (heap s) (heap s2)).
      { cbn [heap s2].
        eapply frame_trans; [apply (frame_app errors _ new)|].
        eapply frame_trans; [apply (frame_app errors _ [rec])|].
        apply frame_insert. }
      destruct (IH s2 (acc ++ [VRef n1])) as (s' & outs & recs & Hrun & F & He & Hc & Hl & Ho & Hrec).
      { cbn [heap s2]. rewrite list_lookup_insert_eq; [reflexivity|].
        rewrite !length_app. lia. }
      { eapply valid_ref_frame; [exact F2|exact Hv]. }
      exists s', (r :: outs), (n1 :: recs).
      assert (Hr2 : heap s2 !! r = Some (OResult false e val)).
      { cbn [heap s2]. rewrite list_lookup_insert_ne by congruence.
        rewrite lookup_app_l by assumption. exact Hr. }
      assert (Hr' : heap s' !! r = Some (OResult false e val)).
      { destruct F as [_ F]. rewrite F; auto.
        cbn [heap s2]. rewrite length_insert, length_app. fold n1. lia. }
      assert (Hn1 : heap s' !! n1 = Some rec).
      { destruct F as [_ F]. rewrite F.
        - cbn [heap s2]. rewrite list_lookup_insert_ne.
          + unfold n1. apply lookup_snoc_eq.
          + unfold n1. rewrite length_app. lia.
        - cbn [heap s2]. rewrite length_insert, length_app. fold n1.
          cbn. lia.
        - unfold n1. rewrite length_app. lia. }
      fold s2. rewrite Hrun.
      split; [reflexivity|]. split.
      { eapply frame_trans; [exact F2|exact F]. }
      split.
      { rewrite He. rewrite <- app_assoc. reflexivity. }
      split.
      { rewrite Hc. cbn [calls s2]. rewrite <- app_assoc. f_equal.
        cbn [invocations zip_with app fst snd fn_index]. fold x. f_equal.
        apply (invocations_frame errors); auto. }
      split; [cbn; lia|]. split.
      { constructor; eauto. }
      cbn [List.map zip zip_with fst]. unfold failing. cbn [List.filter snd].
      unfold valid_at at 1. rewrite Hr'. cbn [negb].
      constructor; [|exact Hrec].
      unfold record_of, errors_at. cbn [fst snd]. rewrite Hr'. exact Hn1.
Qed.

Lemma Object_entries_app (h new : list HObj) (v : JsVal) :
  valid_ref h v -> Object_entries (h ++ new) v = Object_entries h v.
Proof.
  destruct v; cbn; try reflexivity. intros Ha.
  now rewrite lookup_app_l.
Qed.

Lemma failing_ext (h h' : list HObj) (l : list (string * addr)) :
  (forall p, In p l -> h' !! snd p = h !! snd p) ->
  failing h' l = failing h l.
Proof.
  intros E. unfold failing. induction l as [|p l IH]; cbn; [reflexivity|].
  assert (Hp : valid_at h' (snd p) = valid_at h (snd p)).
  { unfold valid_at. rewrite (E p); [reflexivity|now left]. }
  rewrite Hp, IH; [reflexivity|]. intros q Hq. apply E. now right.
Qed.

Lemma in_zip_snd {A B} (ks : list A) (outs : list B) (p : A * B) :
  In p (zip ks outs) -> In (snd p) outs.
Proof.
  revert outs. induction ks as [|k ks IH]; intros [|o outs]; cbn; try tauto.
  intros [<-|Hin]; [now left|right; auto].
Qed.

Lemma Forall2_weaken_in {A B} (P Q : A -> B -> Prop) (l : list A)
    (k : list B) :
  Forall2 P l k -> (forall x y, In x l -> P x y -> Q x y) -> Forall2 Q l k.
Proof.
  induction 1 as [|x y l k Hxy _ IH]; intros W; constructor.
  - apply W; [now left|assumption].
  - apply IH. intros x' y' Hin. apply W. now right.
Qed.

(** [validate] on any argument that is neither [undefined] nor [null],
    for rules that are validators. *)
Lemma validate_general (this : addr) (data rules : JsVal) (s : State)
    (ents : list (string * JsVal)) :
  heap s !! this = Some (OSchemaValidator rules) ->
  valid_ref (heap s) rules ->
  Object_entries (heap s) rules = Some ents ->
  Forall (fun kv => validator_fn (snd kv)) ents ->
  data <> VUndefined -> data <> VNull -> valid_ref (heap s) data ->
  exists s' r outs recs e,
    validate this data s = Ret (VRef r) s' /\
    (forall a, a < length (heap s) -> heap s' !! a = heap s !! a) /\
    calls s' = calls s ++ invocations (heap s) data ents outs /\
    length outs = length ents /\
    Forall2 (record_of (heap s'))
            (failing (heap s') (zip (List.map fst ents) outs)) recs /\
    heap s' !! e = Some (OArray (List.map VRef recs)) /\
    heap s' !! r
    = Some (match failing (heap s') (zip (List.map fst ents) outs) with
            | [] => OResult true (VRef e) (Some data)
            | _ => OResult false (VRef e) None
            end).
Proof.
  intros Hthis Hvr Hents Hfns Hu Hn Hvd.
  set (n := length (heap s)).
  set (s1 := mkState (heap s ++ [OArray []]) (calls s)).
  assert (Hthis_lt : this < n) by (eapply lookup_lt_Some; eauto).
  assert (F1 : frame n (heap s) (heap s1)) by apply frame_app.
  assert (Hdn : data <> VRef n).
  { intros ->. cbn in Hvd. unfold n in Hvd. lia. }
  destruct (validate_loop_spec n data ents Hfns Hu Hn Hdn s1 [])
    as (s2 & outs & recs & Hrun & F & He & Hc & Hl & Ho & Hrec).
  { apply lookup_snoc_eq. }
  { eapply valid_ref_frame; eauto. }
  cbn [app] in He.
  assert (Hlen2 : S n <= length (heap s2)).
  { destruct F as [L _]. cbn [heap s1] in L. rewrite length_app in L.
    cbn in L. unfold n. lia. }
  assert (Hold : forall a, a < n -> heap s2 !! a = heap s !! a).
  { intros a Ha. destruct F as [_ F]. rewrite F.
    - cbn [heap s1]. now apply lookup_app_l.
    - cbn [heap s1]. rewrite length_app. fold n. lia.
    - lia. }
  assert (Hrun' : validate this data s
                  = (if 0 <? length recs then fail (VRef n) s2
                     else ok data s2)).
  { unfold validate. unfold bind at 1. unfold alloc at 1. fold n. fold s1.
    unfold bind at 1. unfold get at 1. cbn [heap s1 Get].
    rewrite lookup_app_l by assumption. rewrite Hthis.
    cbn [String.eqb Ascii.eqb Bool.eqb].
    unfold bind at 1. unfold entries at 1. fold s1.
    cbn [heap s1]. rewrite Object_entries_app by assumption. rewrite Hents.
    unfold bind at 1. fold s1. rewrite Hrun.
    unfold bind at 1. unfold array_length. rewrite He.
    rewrite length_map. now destruct (0 <? length recs). }
  assert (Houts : forall p, In p (zip (List.map fst ents) outs) ->
                    snd p < length (heap s2)).
  { intros p Hp. apply in_zip_snd in Hp.
    rewrite Forall_forall in Ho. destruct (Ho (snd p)) as (b & e & v & Hb).
    - now apply list_elem_of_In.
    - eapply lookup_lt_Some; eauto. }
  destruct recs as [|rec recs].
  - (* every rule passed *)
    cbn [length Nat.ltb Nat.leb] in Hrun'.
    rewrite ok_returns in Hrun'. unfold returned_ok in Hrun'.
    set (h' := heap s2 ++ [OArray []; OResult true (VRef (length (heap s2))) (Some data)]) in *.
    assert (Hf : failing h' (zip (List.map fst ents) outs)
                 = failing (heap s2) (zip (List.map fst ents) outs)).
    { apply failing_ext. intros p Hp. unfold h'.
      apply lookup_app_l. auto. }
    assert (Hnil : failing (heap s2) (zip (List.map fst ents) outs) = [])
      by (now inversion Hrec).
    eexists _, _, outs, [], (length (heap s2)).
    split; [exact Hrun'|]. cbn [heap calls]. rewrite Hf, Hnil.
    split.
    { intros a Ha. unfold h'. rewrite lookup_app_l by lia. auto. }
    split.
    { rewrite Hc. cbn [calls s1]. f_equal.
      apply (invocations_frame n); auto. }
    split; [exact Hl|]. split; [constructor|].
    split.
    + unfold h'. now rewrite list_lookup_middle.
    + unfold h'.
      change [OArray []; OResult true (VRef (length (heap s2))) (Some data)]
        with ([OArray []] ++ [OResult true (VRef (length (heap s2))) (Some data)]).
      rewrite app_assoc.
      replace (S (length (heap s2))) with (length (heap s2 ++ [OArray []]))
        by (rewrite length_app; cbn; lia).
      apply lookup_snoc_eq.
  - (* some rule failed *)
    cbn [length Nat.ltb Nat.leb] in Hrun'.
    rewrite (fail_array _ _ _ He) in Hrun'.
    set (h' := heap s2 ++ [OResult false (VRef n) None]) in *.
    assert (Hf : failing h' (zip (List.map fst ents) outs)
                 = failing (heap s2) (zip (List.map fst ents) outs)).
    { apply failing_ext. intros p Hp. unfold h'.
      apply lookup_app_l. auto. }
    eexists _, _, outs, (rec :: recs), n.
    split; [exact Hrun'|]. cbn [heap calls]. rewrite Hf.
    split.
    { intros a Ha. unfold h'. rewrite lookup_app_l by lia. auto. }
    split.
    { rewrite Hc. cbn [calls s1]. f_equal.
      apply (invocations_frame n); auto. }
    split; [exact Hl|]. split.
    { eapply Forall2_weaken_in; [exact Hrec|].
      intros p q Hp Hq. unfold record_of, errors_at in *. unfold h'.
      assert (Hp2 : snd p < length (heap s2)).
      { apply Houts. unfold failing in Hp.
        apply filter_In in Hp. tauto. }
      rewrite (lookup_app_l _ _ (snd p)) by assumption.
      rewrite lookup_app_l; [exact Hq|]. eapply lookup_lt_Some; eauto. }
    split.
    + unfold h'. rewrite lookup_app_l by lia. exact He.
    + unfold h'. rewrite lookup_snoc_eq.
      destruct (failing (heap s2) (zip (List.map fst ents) outs));
        [inversion Hrec|reflexivity].
Qed.

Lemma in_insert_by_index x y l :
  In x (insert_by_index y l) -> x = y \/ In x l.
Proof.
  induction l as [|z l IH]; cbn.
  - intros [<-|[]]. now left.
  - destruct (fst y <? fst z)%N; cbn.
    + intros [<-|[<-|Hin]]; auto.
    + intros [<-|Hin]; auto. destruct (IH Hin); auto.
Qed.

Lemma in_sorted_index_props x l :
  In x (fold_right insert_by_index [] l) -> In x l.
Proof.
  induction l as [|y l IH]; cbn; [tauto|].
  intros Hin. apply in_insert_by_index in Hin. destruct Hin; auto.
Qed.

Lemma in_index_props i kv props :
  In (i, kv) (index_props props) -> In kv props.
Proof.
  unfold index_props. induction props as [|p props IH]; cbn; [tauto|].
  destruct (array_index (fst p)); cbn; [|auto].
  intros [E|Hin]; [left; congruence|auto].
Qed.

Lemma in_enumeration_order kv props :
  In kv (enumeration_order props) -> In kv props.
Proof.
  unfold enumeration_order. rewrite in_app_iff, in_map_iff, filter_In.
  intros [([i kv'] & <- & Hin)|[Hin _]]; [|assumption].
  apply in_sorted_index_props in Hin. now apply in_index_props in Hin.
Qed.

(** Without array-index keys the enumeration is the creation order. *)
Lemma enumeration_order_plain props :
  forallb (fun kv => negb (is_index_key (fst kv))) props = true ->
  enumeration_order props = props.
Proof.
  intros Hall.
  assert (E : index_props props = []
              /\ List.filter (fun kv => negb (is_index_key (fst kv))) props
                 = props).
  { unfold index_props, is_index_key in *.
    induction props as [|p props IH]; cbn in *; [auto|].
    destruct (array_index (fst p)); cbn in *; [discriminate|].
    destruct (IH Hall) as [-> ->]. auto. }
  unfold enumeration_order. destruct E as [-> ->]. reflexivity.
Qed.

(** C5, as the code has it.  Given rules that are validators and a data
    object, [validate] invokes each rule's validator exactly once on
    [data[fieldName]], in the order in which [Object.entries] enumerates
    the rules: array-index field names by ascending index, then the other
    field names in the order of their insertion.  [data[fieldName]] is the
    own property of [data] of that name, else the member of that name which
    [data] inherits from its prototype chain, else [undefined].  [validate]
    returns a fresh Result and leaves every cell that existed before the
    call, the data object among them, as it was.  That Result succeeds and
    wraps [data] itself when no field failed; otherwise it fails and its
    errors are exactly the records [{field, errors}] of the failing fields
    in that same order, where [errors] is what the field's Result holds.
    Properties of [data] without a rule are never read.  When no field name
    is an array index the order is the insertion order of the rules. *)
Theorem validate_spec (this rulesAddr : addr) (data : JsVal)
    (props : list (string * JsVal)) (s : State) :
  heap s !! this = Some (OSchemaValidator (VRef rulesAddr)) ->
  heap s !! rulesAddr = Some (OPlain props) ->
  data <> VUndefined -> data <> VNull -> valid_ref (heap s) data ->
  Forall (fun kv => validator_fn (snd kv)) props ->
  exists s' r outs recs e,
    validate this data s = Ret (VRef r) s' /\
    (forall a, a < length (heap s) -> heap s' !! a = heap s !! a) /\
    calls s'
    = calls s
      ++ zip_with (fun kv out =>
                     (fn_index (snd kv),
                      default VUndefined (Get (heap s) data (fst kv)),
                      Some (VRef out)))
                  (enumeration_order props) outs /\
    length outs = length (enumeration_order props) /\
    Forall2 (record_of (heap s'))
            (failing (heap s')
               (zip (List.map fst (enumeration_order props)) outs)) recs /\
    heap s' !! e = Some (OArray (List.map VRef recs)) /\
    heap s' !! r
    = Some (match failing (heap s')
                    (zip (List.map fst (enumeration_order props)) outs) with
            | [] => OResult true (VRef e) (Some data)
            | _ => OResult false (VRef e) None
            end) /\
    (forall dataAddr dprops key,
       data = VRef dataAddr -> heap s !! dataAddr = Some (OPlain dprops) ->
       Get (heap s) data key
       = Some match assoc key dprops with
              | Some v => v
              | None => inherited KPlain key
              end) /\
    (forallb (fun kv => negb (is_index_key (fst kv))) props = true ->
     enumeration_order props = props).
Proof.
  intros Hthis Hrules Hu Hn Hvd Hfns.
  assert (Hents : Object_entries (heap s) (VRef rulesAddr)
                  = Some (enumeration_order props))
    by (cbn; now rewrite Hrules).
  assert (Hfns' : Forall (fun kv => validator_fn (snd kv))
                    (enumeration_order props)).
  { rewrite Forall_forall in *. intros kv Hin. apply Hfns.
    apply list_elem_of_In. apply in_enumeration_order.
    now apply list_elem_of_In. }
  destruct (validate_general this data (VRef rulesAddr) s
              (enumeration_order props) Hthis)
    as (s' & r & outs & recs & e & Hrun & Hold & Hc & Hl & Hrec & He & Hr);
    try assumption.
  { cbn. eapply lookup_lt_Some; eauto. }
  exists s', r, outs, recs, e.
  split; [exact Hrun|]. split; [exact Hold|]. split; [exact Hc|].
  repeat (split; [assumption|]). split.
  - intros dataAddr dprops key -> Hdata. cbn [Get]. now rewrite Hdata.
  - apply enumeration_order_plain.
Qed.
End SchemaLaws.

Section NoThrow.
Context `{Host} `{Patterns}.
Import ValidationResult FieldValidators SchemaValidator.



End NoThrow.

Section Invariant.
Context `{Host}.
Import ValidationResult.

Lemma lookup_app_pair (h : list HObj) (x y : HObj) (r : addr) (o : HObj) :
  (h ++ [x; y]) !! r = Some o ->
  (r < length h /\ h !! r = Some o)
  \/ (r = length h /\ o = x) \/ (r = S (length h) /\ o = y).
Proof.
  intros Hr. destruct (decide (r < length h)) as [Hlt|Hge].
  - left. split; [assumption|]. now rewrite lookup_app_l in Hr.
  - right. rewrite lookup_app_r in Hr by lia.
    destruct (r - length h) as [|[|n]] eqn:E; cbn in Hr.
    + left. split; [lia|congruence].
    + right. split; [lia|congruence].
    + discriminate.
Qed.

Lemma lookup_app_single (h : list HObj) (x : HObj) (r : addr) (o : HObj) :
  (h ++ [x]) !! r = Some o ->
  (r < length h /\ h !! r = Some o) \/ (r = length h /\ o = x).
Proof.
  intros Hr. destruct (decide (r < length h)) as [Hlt|Hge].
  - left. split; [assumption|]. now rewrite lookup_app_l in Hr.
  - right. rewrite lookup_app_r in Hr by lia.
    destruct (r - length h) as [|n] eqn:E; cbn in Hr.
    + split; [lia|congruence].
    + discriminate.
Qed.

Lemma unowned_spec (h : list HObj) (a r : addr) (val : option JsVal) :
  unowned h a = true -> h !! r = Some (OResult true (VRef a) val) -> False.
Proof.
  unfold unowned. rewrite forallb_forall. intros U Hr.
  apply list_elem_of_lookup_2, list_elem_of_In in Hr.
  specialize (U _ Hr). cbn in U. now rewrite Nat.eqb_refl in U.
Qed.

(** A fresh array together with a fresh Result that holds it. *)
Lemma Inv_alloc_pair strict (h : list HObj) (l : list JsVal) (b : bool)
    (val : option JsVal) :
  Inv strict h ->
  (b = true -> l = []) -> (strict = true -> b = false -> l <> []) ->
  Inv strict (h ++ [OArray l; OResult b (VRef (length h)) val]).
Proof.
  intros [W V Fd] Hb Hs.
  assert (Harr : (h ++ [OArray l; OResult b (VRef (length h)) val])
                 !! length h = Some (OArray l))
    by now apply list_lookup_middle.
  split.
  - intros r b0 e0 val0 Hr.
    apply lookup_app_pair in Hr as [[Hlt Hr]|[[-> Ho]|[-> Ho]]].
    + destruct (W _ _ _ _ Hr) as (a & errs & -> & Ha).
      exists a, errs. split; [reflexivity|now apply lookup_app_l_Some].
    + discriminate.
    + injection Ho as -> -> ->. eauto.
  - intros r a val0 Hr.
    apply lookup_app_pair in Hr as [[Hlt Hr]|[[-> Ho]|[-> Ho]]].
    + destruct (V _ _ _ Hr) as [Ha U].
      split; [now apply lookup_app_l_Some|].
      intros r' b' val' Hr'.
      apply lookup_app_pair in Hr' as [[Hlt' Hr']|[[-> Ho']|[-> Ho']]].
      * eauto.
      * discriminate.
      * injection Ho' as _ E _. subst a.
        apply lookup_lt_Some in Ha. lia.
    + discriminate.
    + injection Ho as E1 E2 E3. subst a.
      split; [rewrite Harr, Hb; auto|].
      intros r' b' val' Hr'.
      apply lookup_app_pair in Hr' as [[Hlt' Hr']|[[-> Ho']|[-> Ho']]].
      * destruct (W _ _ _ _ Hr') as (a & errs & E & Ha).
        injection E as <-. apply lookup_lt_Some in Ha. lia.
      * discriminate.
      * reflexivity.
  - intros Hst r a val0 Hr.
    apply lookup_app_pair in Hr as [[Hlt Hr]|[[-> Ho]|[-> Ho]]].
    + destruct (Fd Hst _ _ _ Hr) as (errs & Ha & Hne).
      exists errs. split; [now apply lookup_app_l_Some|assumption].
    + discriminate.
    + injection Ho as E1 E2 E3. subst a. exists l. auto.
Qed.

(** A fresh failing Result that holds an existing array. *)
Lemma Inv_alloc_shared strict (h : list HObj) (a : addr)
    (elems : list JsVal) :
  Inv strict h ->
  h !! a = Some (OArray elems) -> unowned h a = true ->
  (strict = true -> elems <> []) ->
  Inv strict (h ++ [OResult false (VRef a) None]).
Proof.
  intros [W V Fd] Ha U Hs.
  split.
  - intros r b0 e0 val0 Hr.
    apply lookup_app_single in Hr as [[Hlt Hr]|[-> Ho]].
    + destruct (W _ _ _ _ Hr) as (a' & errs & -> & Ha').
      exists a', errs. split; [reflexivity|now apply lookup_app_l_Some].
    + injection Ho as -> -> ->. exists a, elems.
      split; [reflexivity|now apply lookup_app_l_Some].
  - intros r a0 val0 Hr.
    apply lookup_app_single in Hr as [[Hlt Hr]|[-> Ho]]; [|discriminate].
    destruct (V _ _ _ Hr) as [Ha0 U0].
    split; [now apply lookup_app_l_Some|].
    intros r' b' val' Hr'.
    apply lookup_app_single in Hr' as [[Hlt' Hr']|[-> Ho']].
    + eauto.
    + injection Ho' as _ E _. subst a0.
      exfalso. eapply unowned_spec; eauto.
  - intros Hst r a0 val0 Hr.
    apply lookup_app_single in Hr as [[Hlt Hr]|[-> Ho]].
    + destruct (Fd Hst _ _ _ Hr) as (errs & Ha0 & Hne).
      exists errs. split; [now apply lookup_app_l_Some|assumption].
    + injection Ho as E _. subst a0. exists elems.
      split; [now apply lookup_app_l_Some|auto].
Qed.

(** The Result at [r] is marked as failed and its array grows. *)
Lemma Inv_invalidate strict (h h' : list HObj) (r a : addr) (b : bool)
    (val : option JsVal) (errs items : list JsVal) :
  Inv strict h ->
  h !! r = Some (OResult b (VRef a) val) ->
  h !! a = Some (OArray errs) ->
  h' !! r = Some (OResult false (VRef a) val) ->
  h' !! a = Some (OArray (errs ++ items)) ->
  (forall x, x <> r -> x <> a -> h' !! x = h !! x) ->
  (strict = true -> errs ++ items <> []) ->
  Inv strict h'.
Proof.
  intros [W V Fd] Hr Ha Hr' Ha' Hother Hs.
  assert (Hres : forall x b0 e0 v0,
            h' !! x = Some (OResult b0 e0 v0) ->
            x <> r -> h !! x = Some (OResult b0 e0 v0)).
  { intros x b0 e0 v0 Hx Hxr. rewrite <- Hother; auto.
    intros ->. congruence. }
  assert (Harr : forall a' l', h !! a' = Some (OArray l') ->
            exists l'', h' !! a' = Some (OArray l'')
                        /\ (a' <> a -> l'' = l')).
  { intros a' l' Ha0. destruct (decide (a' = a)) as [->|Hn].
    - eexists. split; [exact Ha'|tauto].
    - exists l'. split; [|reflexivity]. rewrite Hother; auto.
      intros ->. congruence. }
  split.
  - intros x b0 e0 v0 Hx. destruct (decide (x = r)) as [->|Hxr].
    + rewrite Hr' in Hx. injection Hx as <- <- <-. eauto.
    + apply Hres in Hx; [|assumption].
      destruct (W _ _ _ _ Hx) as (a' & l' & -> & Ha0).
      destruct (Harr _ _ Ha0) as (l'' & Hl & _). eauto.
  - intros x a0 v0 Hx. destruct (decide (x = r)) as [->|Hxr].
    + rewrite Hr' in Hx. discriminate.
    + apply Hres in Hx; [|assumption].
      destruct (V _ _ _ Hx) as [Ha0 U0].
      assert (Hne : a0 <> a).
      { intros ->. apply Hxr. symmetry. eapply U0; eauto. }
      split.
      * destruct (Harr _ _ Ha0) as (l'' & Hl & E).
        rewrite Hl, E; auto.
      * intros x' b' v' Hx'. destruct (decide (x' = r)) as [->|Hx'r].
        -- rewrite Hr' in Hx'. congruence.
        -- apply Hres in Hx'; eauto.
  - intros Hst x a0 v0 Hx. destruct (decide (x = r)) as [->|Hxr].
    + rewrite Hr' in Hx. injection Hx as <- <-. eauto.
    + apply Hres in Hx; [|assumption].
      destruct (Fd Hst _ _ _ Hx) as (l0 & Ha0 & Hne).
      destruct (decide (a0 = a)) as [->|Hn].
      * eauto.
      * destruct (Harr _ _ Ha0) as (l'' & Hl & E).
        rewrite E in Hl by assumption. eauto.
Qed.

Lemma failed_extend (h new : list HObj) (r : addr) :
  failed_at h r -> failed_at (h ++ new) r.
Proof.
  intros (e & val & Hr). exists e, val. now apply lookup_app_l_Some.
Qed.

Lemma failed_invalidate (h h' : list HObj) (r a : addr) (b : bool)
    (e : JsVal) (val : option JsVal) (errs : list JsVal) (x : addr) :
  h !! r = Some (OResult b e val) ->
  h !! a = Some (OArray errs) ->
  h' !! r = Some (OResult false e val) ->
  (forall y, y <> r -> y <> a -> h' !! y = h !! y) ->
  failed_at h x -> failed_at h' x.
Proof.
  intros Hr Ha Hr' Hother (e0 & v0 & Hx).
  destruct (decide (x = r)) as [->|Hxr]; [red; eauto|].
  exists e0, v0. rewrite Hother; auto. intros ->. congruence.
Qed.

Lemma is_result_true (h : list HObj) (r : addr) :
  is_result h r = true -> exists b e val, h !! r = Some (OResult b e val).
Proof.
  unfold is_result. destruct (h !! r) as [[]|]; try discriminate. eauto.
Qed.

Lemma ok_preserves strict (value : JsVal) (s : State) :
  Inv strict (heap s) ->
  Inv strict (heap (final (ok value s)))
  /\ forall r, failed_at (heap s) r -> failed_at (heap (final (ok value s))) r.
Proof.
  intros I. rewrite ok_returns. unfold returned_ok. cbn [final heap].
  split; [|intros r; apply failed_extend].
  apply Inv_alloc_pair; [assumption|reflexivity|discriminate].
Qed.

Lemma fail_preserves strict (errors : JsVal) (s : State) :
  Inv strict (heap s) ->
  fail_legal strict (heap s) errors = true ->
  Inv strict (heap (final (fail errors s)))
  /\ forall r, failed_at (heap s) r
               -> failed_at (heap (final (fail errors s))) r.
Proof.
  intros I L.
  assert (Hwrap : errors <> VUndefined ->
                  Array_isArray (heap s) errors = false ->
                  Inv strict (heap (final (fail errors s)))
                  /\ forall r, failed_at (heap s) r
                      -> failed_at (heap (final (fail errors s))) r).
  { intros Hu Harr. rewrite fail_returns by assumption.
    unfold returned_fail. cbn [final heap].
    split; [|intros r; apply failed_extend].
    apply Inv_alloc_pair; [assumption|discriminate|discriminate]. }
  destruct errors as [| |b|x|str|id|a]; try (apply Hwrap; [discriminate|reflexivity]).
  - (* fail() *)
    cbn in L. rewrite fail_default. cbn [final heap].
    split; [|intros r; apply failed_extend].
    apply Inv_alloc_pair; [assumption|discriminate|].
    intros ->. discriminate.
  - cbn [fail_legal] in L.
    destruct (heap s !! a) as [[elems| | |]|] eqn:Ha;
      try (apply Hwrap; [discriminate|cbn; now rewrite Ha]).
    (* fail(array) *)
    apply andb_true_iff in L as [U Hne].
    rewrite (fail_array _ _ _ Ha). cbn [final heap].
    split; [|intros r; apply failed_extend].
    eapply Inv_alloc_shared; eauto.
    intros ->. cbn in Hne. now destruct elems.
Qed.

Lemma addError_preserves strict (this : addr) (error : JsVal) (s : State) :
  Inv strict (heap s) ->
  is_result (heap s) this = true ->
  Inv strict (heap (final (addError this error s)))
  /\ forall r, failed_at (heap s) r
               -> failed_at (heap (final (addError this error s))) r.
Proof.
  intros I L. apply is_result_true in L as (b & e & val & Hthis).
  destruct (inv_wf _ _ I _ _ _ _ Hthis) as (a & errs & -> & Ha).
  destruct (addError_effect this error s b a errs val Hthis Ha)
    as (s' & -> & Hr' & Ha' & Hother & _).
  cbn [final]. split.
  - apply (Inv_invalidate strict (heap s) (heap s') this a b val errs
             [error] I Hthis Ha Hr' Ha' Hother).
    intros _. now destruct errs.
  - intros r.
    apply (failed_invalidate (heap s) (heap s') this a b (VRef a) val
             errs r Hthis Ha Hr' Hother).
Qed.

Lemma merge_preserves strict (this other : addr) (s : State) :
  Inv strict (heap s) ->
  is_result (heap s) this = true -> is_result (heap s) other = true ->
  Inv strict (heap (final (merge this (VRef other) s)))
  /\ forall r, failed_at (heap s) r
               -> failed_at (heap (final (merge this (VRef other) s))) r.
Proof.
  intros I L Lo.
  apply is_result_true in L as (b & e & val & Hthis).
  apply is_result_true in Lo as (bo & eo & valo & Hother).
  destruct bo.
  - rewrite (merge_passing _ _ _ _ _ Hother). cbn [final]. auto.
  - destruct (inv_wf _ _ I _ _ _ _ Hthis) as (a & errs & -> & Ha).
    destruct (inv_wf _ _ I _ _ _ _ Hother) as (ao & oerrs & -> & Hao).
    destruct (merge_failing this other s b a ao errs oerrs val valo
                Hthis Ha Hother Hao)
      as (s' & -> & Hr' & Ha' & Hrest & _).
    cbn [final]. split.
    + apply (Inv_invalidate strict (heap s) (heap s') this a b val errs
               oerrs I Hthis Ha Hr' Ha' Hrest).
      intros Hst.
      destruct (inv_failed _ _ I Hst _ _ _ Hother) as (l & Hl & Hne).
      rewrite Hao in Hl. injection Hl as <-. now destruct errs, oerrs.
    + intros r.
      apply (failed_invalidate (heap s) (heap s') this a b (VRef a) val
               errs r Hthis Ha Hr' Hrest).
Qed.

Lemma call_preserves strict (fn arg : JsVal) (s : State) :
  callbacks_respect strict -> Inv strict (heap s) ->
  Inv strict (heap (final (call fn arg s)))
  /\ forall r, failed_at (heap s) r
               -> failed_at (heap (final (call fn arg s))) r.
Proof.
  intros C I. unfold call. destruct fn; cbn [final]; auto.
  destruct (C id arg (heap s) I) as [I' Mo].
  destruct (fun_body id arg (heap s)); cbn [final heap] in *; auto.
Qed.

Lemma map_passing (this : addr) (fn : JsVal) (s : State) (e : JsVal)
    (val : option JsVal) :
  heap s !! this = Some (OResult true e val) ->
  map this fn s
  = match call fn (default VUndefined val) s with
    | Ret x s1 => ok x s1
    | Throw x s1 => Throw x s1
    end.
Proof.
  intros Hthis. unfold map, bind, get, ret. cbn [Get]. rewrite Hthis.
  cbn -[call ok]. now rewrite Hthis.
Qed.

Lemma flatMap_passing (this : addr) (fn : JsVal) (s : State) (e : JsVal)
    (val : option JsVal) :
  heap s !! this = Some (OResult true e val) ->
  flatMap this fn s = call fn (default VUndefined val) s.
Proof.
  intros Hthis. unfold flatMap, bind, get, ret. cbn [Get]. rewrite Hthis.
  cbn -[call]. now rewrite Hthis.
Qed.

Lemma map_preserves strict (this : addr) (fn : JsVal) (s : State) :
  callbacks_respect strict -> Inv strict (heap s) ->
  is_result (heap s) this = true ->
  Inv strict (heap (final (map this fn s)))
  /\ forall r, failed_at (heap s) r
               -> failed_at (heap (final (map this fn s))) r.
Proof.
  intros C I L. apply is_result_true in L as ([] & e & val & Hthis).
  - rewrite (map_passing _ _ _ _ _ Hthis).
    destruct (call_preserves strict fn (default VUndefined val) s C I)
      as [I1 M1].
    destruct (call fn (default VUndefined val) s) as [x s1|x s1];
      cbn [final] in *; [|auto].
    destruct (ok_preserves strict x s1 I1) as [I2 M2]. auto.
  - rewrite (map_failing _ _ _ _ _ Hthis). cbn [final]. auto.
Qed.

Lemma flatMap_preserves strict (this : addr) (fn : JsVal) (s : State) :
  callbacks_respect strict -> Inv strict (heap s) ->
  is_result (heap s) this = true ->
  Inv strict (heap (final (flatMap this fn s)))
  /\ forall r, failed_at (heap s) r
               -> failed_at (heap (final (flatMap this fn s))) r.
Proof.
  intros C I L. apply is_result_true in L as ([] & e & val & Hthis).
  - rewrite (flatMap_passing _ _ _ _ _ Hthis).
    apply call_preserves; assumption.
  - rewrite (flatMap_failing _ _ _ _ _ Hthis). cbn [final]. auto.
Qed.

Lemma run_op_preserves strict (op : Op) (s : State) :
  callbacks_respect strict -> Inv strict (heap s) ->
  legal strict (heap s) op = true ->
  Inv strict (heap (final (run_op op s)))
  /\ forall r, failed_at (heap s) r
               -> failed_at (heap (final (run_op op s))) r.
Proof.
  intros C I L. destruct op; cbn [run_op legal] in *.
  - now apply ok_preserves.
  - now apply fail_preserves.
  - now apply addError_preserves.
  - apply andb_true_iff in L as [L1 L2]. now apply merge_preserves.
  - now apply map_preserves.
  - now apply flatMap_preserves.
Qed.

Lemma run_ops_preserves strict (ops : list Op) :
  callbacks_respect strict ->
  forall s, Inv strict (heap s) -> legal_run strict ops s ->
    Inv strict (heap (run_ops ops s))
    /\ forall r, failed_at (heap s) r -> failed_at (heap (run_ops ops s)) r.
Proof.
  intros C. induction ops as [|op ops IH]; intros s I L; cbn [run_ops].
  - auto.
  - destruct L as [L1 L2].
    destruct (run_op_preserves strict op s C I L1) as [I1 M1].
    destruct (IH _ I1 L2) as [I2 M2]. auto.
Qed.

(** C3, as the code has it.  Take any history of [ok], [fail],
    [addError], [merge], [map] and [flatMap] in which [fail] is never
    handed the error array of a succeeding Result and the callbacks keep
    the Results in order.  Afterwards every Result holds an array of
    errors; if that array is not empty the Result has failed; a Result
    that had failed before the history has still failed after it; and if
    moreover [fail] was never called without an argument or with an empty
    array ([strict]), a Result has failed exactly when its errors are not
    empty.  The final store is again one from which these facts
    continue. *)
Theorem result_histories (strict : bool) (ops : list Op) (s : State) :
  callbacks_respect strict ->
  Inv strict (heap s) ->
  legal_run strict ops s ->
  Inv strict (heap (run_ops ops s)) /\
  (forall r b e val,
     heap (run_ops ops s) !! r = Some (OResult b e val) ->
     exists a errs,
       e = VRef a /\ heap (run_ops ops s) !! a = Some (OArray errs) /\
       (errs <> [] -> b = false) /\
       (strict = true -> (b = false <-> errs <> []))) /\
  (forall r, failed_at (heap s) r -> failed_at (heap (run_ops ops s)) r).
Proof.
  intros C I L.
  destruct (run_ops_preserves strict ops C s I L) as [I' Mo].
  split; [exact I'|]. split; [|exact Mo].
  intros r b e val Hr.
  destruct (inv_wf _ _ I' _ _ _ _ Hr) as (a & errs & -> & Ha).
  exists a, errs. split; [reflexivity|]. split; [exact Ha|].
  assert (Hv : errs <> [] -> b = false).
  { intros Hne. destruct b; [|reflexivity].
    destruct (inv_valid _ _ I' _ _ _ Hr) as [Ha0 _]. congruence. }
  split; [exact Hv|].
  intros Hst. split; [|exact Hv].
  intros ->. destruct (inv_failed _ _ I' Hst _ _ _ Hr) as (l & Hl & Hne).
  congruence.
Qed.
End Invariant.

(** ** Concrete runs *)

Section Runs.
Import ValidationResult FieldValidators SchemaValidator.
#[local] Existing Instance sample_host.
#[local] Existing Instance sample_patterns.

Lemma final_as_body (m : M JsVal) (h : list HObj) :
  final (as_body m h) = heap (final (m (mkState h []))).
Proof. unfold as_body. now destruct (m (mkState h [])). Qed.

Lemma as_body_ok (value : JsVal) (h : list HObj) :
  as_body (ok value) h
  = Ret (VRef (S (length h)))
        (h ++ [OArray []; OResult true (VRef (length h)) (Some value)]).
Proof. unfold as_body. now rewrite ok_returns. Qed.

Lemma as_body_fail (msg : string) (h : list HObj) :
  as_body (fail (VStr msg)) h
  = Ret (VRef (S (length h)))
        (h ++ [OArray [VStr msg]; OResult false (VRef (length h)) None]).
Proof. unfold as_body. now rewrite fail_string. Qed.

Lemma lookup_second (h : list HObj) (x y : HObj) :
  (h ++ [x; y]) !! S (length h) = Some y.
Proof.
  change [x; y] with ([x] ++ [y]). rewrite app_assoc.
  replace (S (length h)) with (length (h ++ [x]))
    by (rewrite length_app; cbn; lia).
  apply lookup_snoc_eq.
Qed.

(** Functions 2, 4 and 8 of the sample host are validators. *)
Lemma sample_isString_validator : validator_fn (VFun 2).
Proof.
  exists 2. split; [reflexivity|]. intros arg h.
  unfold fun_body. cbn [fun_method sample_host]. unfold isString.
  destruct (negb (String.eqb (typeof arg) "string")).
  - rewrite as_body_fail. do 5 eexists. split; [reflexivity|].
    apply lookup_second.
  - rewrite as_body_ok. do 5 eexists. split; [reflexivity|].
    apply lookup_second.
Qed.

Lemma sample_bad_validator : validator_fn (VFun 4).
Proof.
  exists 4. split; [reflexivity|]. intros arg h.
  unfold fun_body. cbn [fun_method sample_host].
  rewrite as_body_fail. do 5 eexists. split; [reflexivity|].
  apply lookup_second.
Qed.

Lemma sample_isRequired_validator : validator_fn (VFun 8).
Proof.
  exists 8. split; [reflexivity|]. intros arg h.
  unfold fun_body. cbn [fun_method sample_host].
  destruct arg as [| |b|x|[|c str]|id|a];
    rewrite ?as_body_fail, ?as_body_ok;
    (do 5 eexists; split; [reflexivity|apply lookup_second]).
Qed.

(** Function 8 is [isRequired] with its default field name. *)
Lemma sample_isRequired (arg : JsVal) (h : list HObj) :
  fun_body 8 arg h = as_body (isRequired arg VUndefined) h.
Proof.
  unfold fun_body. cbn [fun_method sample_host].
  destruct arg as [| |b|x|[|c str]|id|a]; unfold as_body;
    rewrite ?isRequired_missing, ?isRequired_present by reflexivity;
    rewrite ?ToString_string, ?fail_string, ?ok_returns; reflexivity.
Qed.

Lemma Inv_alloc_plain strict (h : list HObj) (props : list (string * JsVal)) :
  Inv strict h -> Inv strict (h ++ [OPlain props]).
Proof.
  intros [W V Fd].
  assert (Hres : forall r b e val,
            (h ++ [OPlain props]) !! r = Some (OResult b e val) ->
            h !! r = Some (OResult b e val)).
  { intros r b e val Hr. apply lookup_app_Some in Hr as [Hr|[_ Hr]];
      [assumption|].
    destruct (r - length h) as [|[|k]]; cbn in Hr; discriminate. }
  split.
  - intros r b e val Hr. destruct (W _ _ _ _ (Hres _ _ _ _ Hr))
      as (a & errs & -> & Ha).
    exists a, errs. split; [reflexivity|now apply lookup_app_l_Some].
  - intros r a val Hr. destruct (V _ _ _ (Hres _ _ _ _ Hr)) as [Ha U].
    split; [now apply lookup_app_l_Some|].
    intros r' b' val' Hr'. eauto.
  - intros Hst r a val Hr.
    destruct (Fd Hst _ _ _ (Hres _ _ _ _ Hr)) as (errs & Ha & Hne).
    exists errs. split; [now apply lookup_app_l_Some|assumption].
Qed.

Lemma sample_callbacks strict : callbacks_respect strict.
Proof.
  intros id arg h I.
  assert (Hok : forall v,
            Inv strict (final (as_body (ok v) h))
            /\ forall r, failed_at h r -> failed_at (final (as_body (ok v) h)) r).
  { intros v. rewrite final_as_body.
    apply (ok_preserves strict v (mkState h [])). exact I. }
  assert (Hfail : forall msg,
            Inv strict (final (as_body (fail (VStr msg)) h))
            /\ forall r, failed_at h r
                         -> failed_at (final (as_body (fail (VStr msg)) h)) r).
  { intros msg. rewrite final_as_body.
    apply (fail_preserves strict (VStr msg) (mkState h [])); [exact I|].
    reflexivity. }
  assert (Hplain :
            Inv strict (h ++ [OPlain []])
            /\ forall r, failed_at h r -> failed_at (h ++ [OPlain []]) r).
  { split; [now apply Inv_alloc_plain|].
    intros r (e & val & Hr). exists e, val. now apply lookup_app_l_Some. }
  destruct id as [|[|[|[|[|[|[|[|[|id]]]]]]]]]; unfold fun_body;
    cbn [fun_method sample_host final].
  - auto.
  - auto.
  - unfold isString. destruct (negb (String.eqb (typeof arg) "string")); auto.
  - unfold isNumber.
    destruct (negb (String.eqb (typeof arg) "number") || isNaN arg); auto.
  - auto.
  - auto.
  - auto.
  - destruct arg; cbn [final]; auto.
  - destruct arg as [| |b|x|[|c str]|id'|a]; auto.
  - auto.
Qed.

Lemma Inv_nil strict : Inv strict [].
Proof. split; intros; discriminate. Qed.

(** C1 at a failing Result and a function that would throw if invoked. *)
Lemma map_flatMap_failing_witness :
  let s := mkState [OArray [VStr "e"]; OResult false (VRef 0) None] [] in
  heap s !! 1 = Some (OResult false (VRef 0) None) /\
  map 1 (VFun 0) s = Ret (VRef 1) s /\
  flatMap 1 (VFun 0) s = Ret (VRef 1) s.
Proof.
  intros s. split; [reflexivity|].
  destruct (map_flatMap_failing 1 (VFun 0) s (VRef 0) None eq_refl)
    as (Hm & Hf & _).
  split; assumption.
Defined.

(** C2 at a fresh success that absorbs a failure. *)
Lemma merge_spec_witness :
  let s := mkState [OArray []; OResult true (VRef 0) (Some (VStr "v"));
                    OArray [VStr "e1"]; OResult false (VRef 2) None] [] in
  exists s',
    merge 1 (VRef 3) s = Ret (VRef 1) s' /\
    heap s' !! 1 = Some (OResult false (VRef 0) (Some (VStr "v"))) /\
    heap s' !! 0 = Some (OArray [VStr "e1"]).
Proof.
  intros s.
  destruct (merge_spec 1 3 s true false 0 2 [] [VStr "e1"]
              (Some (VStr "v")) None eq_refl eq_refl eq_refl eq_refl)
    as (s' & Hrun & Hthis & Herrs & _).
  exists s'. repeat split; assumption.
Defined.

(** C4 at the failure with errors ['a is required', 'b must be a
    number']. *)
Lemma getOrThrow_spec_witness :
  let s := mkState [OArray [VStr "a is required"; VStr "b must be a number"];
                    OResult false (VRef 0) None] [] in
  getOrThrow 1 s
  = Throw (ExnError "Validation failed: a is required, b must be a number") s
  /\ Array_join 0 ", " s = Ret "a is required, b must be a number" s.
Proof.
  intros s.
  destruct (getOrThrow_spec 1 s false 0
              [VStr "a is required"; VStr "b must be a number"] None
              eq_refl eq_refl) as (Hrun & _ & Hstrings).
  split; [exact Hrun|].
  exact (Hstrings ["a is required"; "b must be a number"] eq_refl).
Defined.

(** C10 at the number 8080. *)
Lemma isPort_spec_witness :
  isPort (num 8080) s0 = returned_ok s0 (num 8080) /\
  ToString (num 8080) s0 = Ret "8080" s0.
Proof.
  destruct (isPort_spec (num 8080) s0) as [Hrun Hstr].
  split; [exact Hrun|exact (Hstr eq_refl)].
Defined.

(** C5 at the rules {name: isString, 7: () => fail('bad')} and the data
    {name: 'x', extra: 'ignored'}. *)
Lemma validate_spec_witness :
  let s := mkState [OPlain [("name", VFun 2); ("7", VFun 4)];
                    OPlain [("name", VStr "x"); ("extra", VStr "ignored")];
                    OSchemaValidator (VRef 0)] [] in
  exists s' r, validate 2 (VRef 1) s = Ret (VRef r) s'.
Proof.
  intros s.
  assert (Hd1 : VRef 1 <> VUndefined) by discriminate.
  assert (Hd2 : VRef 1 <> VNull) by discriminate.
  assert (Hd3 : valid_ref (heap s) (VRef 1)) by (cbn; lia).
  assert (Hfns : Forall (fun kv => validator_fn (snd kv))
                   [("name", VFun 2); ("7", VFun 4)]).
  { constructor; [apply sample_isString_validator|].
    constructor; [apply sample_bad_validator|]. constructor. }
  destruct (validate_spec 2 0 (VRef 1) [("name", VFun 2); ("7", VFun 4)] s
              eq_refl eq_refl Hd1 Hd2 Hd3 Hfns)
    as (s' & r & outs & recs & e & Hrun & _).
  exists s', r. exact Hrun.
Defined.


(** C3 at a history that uses every operation. *)
Lemma result_histories_witness :
  let ops := [OpOk (VStr "v"); OpMap 1 (VFun 1); OpFail (VStr "e1");
              OpMerge 1 5; OpAddError 3 (VStr "e2");
              OpFlatMap 3 (VFun 4)] in
  Inv true (heap (run_ops ops s0)) /\
  (forall r, failed_at (heap s0) r -> failed_at (heap (run_ops ops s0)) r).
Proof.
  intros ops.
  destruct (result_histories true ops s0 (sample_callbacks true)
              (Inv_nil true)) as (HI & _ & Hmono).
  - cbn. repeat split; reflexivity.
  - split; assumption.
Defined.

(** C3 fails as stated.  [ValidationResult.fail([])] is a failure without
    errors; and after [r = ok(1); s = fail(r.errors); s.addError('x')] the
    Result [r], at address 1, still succeeds although its errors hold
    'x'. *)
Lemma failure_without_errors :
  fail (VRef 0) (mkState [OArray []] [])
  = Ret (VRef 1) (mkState [OArray []; OResult false (VRef 0) None] []) /\
  run_ops [OpOk (num 1); OpFail (VRef 0); OpAddError 2 (VStr "x")] s0
  = mkState [OArray [VStr "x"]; OResult true (VRef 0) (Some (num 1));
             OResult false (VRef 0) None] [].
Proof. split; reflexivity. Qed.

(** C4 fails as stated.  The failure made by
    [fail([{toString() { throw 'boom' }}])] has [isValid] false, yet
    [getOrThrow] raises the string 'boom' that the conversion of its error
    threw, and no [Error] with a message. *)
Lemma getOrThrow_escaping_conversion :
  let s := mkState [OPlain [("toString", VFun 0)]; OArray [VRef 0]] [] in
  let s1 := final (fail (VRef 1) s) in
  fail (VRef 1) s = Ret (VRef 2) s1 /\
  heap s1 !! 2 = Some (OResult false (VRef 1) None) /\
  getOrThrow 2 s1
  = Throw (ExnThrown (VStr "boom"))
      (mkState (heap s1) [(0, VUndefined, None)]) /\
  forall message s2, getOrThrow 2 s1 <> Throw (ExnError message) s2.
Proof. repeat split; try reflexivity. intros message s2. discriminate. Qed.

(** C5 fails as stated.  With the rules {b: f, 1: f}, [b] inserted first
    and [f] always failing, the records come out for field '1' first and
    field 'b' second.  And with the rule {constructor: isRequired} the data
    object {}, which has no property [constructor] of its own, passes:
    the validator is invoked on the constructor the object inherits, not on
    [undefined], on which it fails. *)
Lemma records_not_in_insertion_order :
  let rules := [("b", VFun 4); ("1", VFun 4)] in
  let s := mkState [OPlain rules; OPlain []; OSchemaValidator (VRef 0)] [] in
  let s' := final (validate 2 (VRef 1) s) in
  let t := mkState [OPlain [("constructor", VFun 8)]; OPlain [];
                    OSchemaValidator (VRef 0)] [] in
  let t' := final (validate 2 (VRef 1) t) in
  (validate 2 (VRef 1) s = Ret (VRef 10) s' /\
   heap s' !! 10 = Some (OResult false (VRef 3) None) /\
   heap s' !! 3 = Some (OArray [VRef 6; VRef 9]) /\
   heap s' !! 6 = Some (OPlain [("field", VStr "1"); ("errors", VRef 4)]) /\
   heap s' !! 9 = Some (OPlain [("field", VStr "b"); ("errors", VRef 7)]) /\
   record_fields (heap s') [VRef 6; VRef 9] = [VStr "1"; VStr "b"] /\
   List.map fst rules = ["b"; "1"]) /\
  (assoc "constructor" [] = None /\
   isValid_of (validate 2 (VRef 1) t) = Some true /\
   calls t' = [(8, VFun 7, Some (VRef 5))] /\
   isValid_of (call (VFun 8) VUndefined t) = Some false).
Proof. repeat split; reflexivity. Qed.


(** C8 fails as stated.  [isRequired(null, {toString() { throw 'boom' }})]
    is called on a missing value and yet returns no failure: it raises the
    string 'boom'. *)
Lemma isRequired_escaping_conversion :
  let s := mkState [OPlain [("toString", VFun 0)]] [] in
  isRequired VNull (VRef 0) s
  = Throw (ExnThrown (VStr "boom")) (mkState (heap s) [(0, VUndefined, None)])
  /\ returns_result (isRequired VNull (VRef 0) s) = false.
Proof. split; reflexivity. Qed.

(** The cases the specification lists for its validators. *)
Example required_is_not_truthy :
  isValid_of (isRequired (num 0) VUndefined s0) = Some true /\
  isValid_of (isRequired (VBool false) VUndefined s0) = Some true /\
  isValid_of (isRequired (VStr "") VUndefined s0) = Some false /\
  isValid_of (isRequired VNull VUndefined s0) = Some false /\
  isValid_of (isRequired VUndefined VUndefined s0) = Some false.
Proof. repeat split; reflexivity. Qed.

Example number_excludes_NaN :
  isValid_of (isNumber (VNum S754_nan) s0) = Some false /\
  isValid_of (isNumber (VNum (S754_infinity false)) s0) = Some true /\
  isValid_of (isNumber (VNum (S754_infinity true)) s0) = Some true /\
  isValid_of (isNumber (VStr "42") s0) = Some false.
Proof. repeat split; reflexivity. Qed.

(** The number 8080 is a port and comes back as a number; the strings
    '65535' and '65536' lie on either side of the range; an object whose
    [toString] returns '80' is a port and comes back as that object, while
    an object that prints as '[object Object]' is none. *)
Example port_keeps_the_value :
  value_of (isPort (num 8080) s0) = Some (num 8080) /\
  isValid_of (isPort (VStr "65535") s0) = Some true /\
  isValid_of (isPort (VStr "65536") s0) = Some false /\
  isValid_of (isPort (VStr "http") s0) = Some false /\
  value_of (isPort (VRef 0) (mkState [OPlain [("toString", VFun 6)]] []))
  = Some (VRef 0) /\
  isValid_of (isPort (VRef 0) (mkState [OPlain []] [])) = Some false.
Proof. repeat split; vm_compute; reflexivity. Qed.

(** Merging the failures [e1] then [e2] into a fresh success. *)
Example merge_accumulates_in_order :
  let s := run_ops [OpOk (VStr "v"); OpFail (VStr "e1"); OpFail (VStr "e2");
                    OpMerge 1 3; OpMerge 1 5] s0 in
  heap s !! 1 = Some (OResult false (VRef 0) (Some (VStr "v"))) /\
  heap s !! 0 = Some (OArray [VStr "e1"; VStr "e2"]).
Proof. split; reflexivity. Qed.

(** Rules {email: isString, age: isNumber} on {email: 5, age: 'x'}: two
    records, in the order of the rules. *)
Example schema_aggregation :
  let s := mkState [OPlain [("email", VFun 2); ("age", VFun 3)];
                    OPlain [("email", num 5); ("age", VStr "x")]] [] in
  let o := validateSchema (VRef 1) (VRef 0) s in
  isValid_of o = Some false /\
  record_fields (heap (final o)) [VRef 6; VRef 9]
  = [VStr "email"; VStr "age"] /\
  heap (final o) !! 3 = Some (OArray [VRef 6; VRef 9]).
Proof. repeat split; reflexivity. Qed.

(** Rules {email: isString} on {email: 'a@b.com', extra: 'ignored'}: success
    wrapping the data object itself. *)
Example schema_partial_validation :
  let s := mkState [OPlain [("email", VFun 2)];
                    OPlain [("email", VStr "a@b.com");
                            ("extra", VStr "ignored")]] [] in
  let o := validateSchema (VRef 1) (VRef 0) s in
  isValid_of o = Some true /\ value_of o = Some (VRef 1) /\
  heap (final o) !! 1 = heap s !! 1.
Proof. repeat split; reflexivity. Qed.
End Runs.

(** ** Further laws of the Result algebra *)

Section MoreResultLaws.
Context `{Host}.
Import ValidationResult.

(** X1.  [fail] wraps a value that is not an array into a fresh one-element
    array and an omitted argument into a fresh empty array, but an array it
    keeps as it is, without copying: an error added to the Result afterwards
    lands in the caller's own array. *)
Theorem fail_keeps_the_array (a : addr) (elems : list JsVal) (error x : JsVal)
    (s : State) :
  heap s !! a = Some (OArray elems) ->
  x <> VUndefined -> Array_isArray (heap s) x = false ->
  (exists r s1 s2,
     fail (VRef a) s = Ret (VRef r) s1 /\
     heap s1 !! r = Some (OResult false (VRef a) None) /\
     length (heap s1) = S (length (heap s)) /\
     addError r error s1 = Ret (VRef r) s2 /\
     heap s2 !! a = Some (OArray (elems ++ [error]))) /\
  fail x s = returned_fail s x /\
  exists r s1,
    fail VUndefined s = Ret (VRef r) s1 /\
    heap s1 !! r = Some (OResult false (VRef (length (heap s))) None) /\
    heap s1 !! length (heap s) = Some (OArray []).
Proof.
  intros Ha Hx Harr. split; [|split].
  - rewrite (fail_array _ _ _ Ha).
    set (s1 := mkState (heap s ++ [OResult false (VRef a) None]) (calls s)).
    assert (Hr : heap s1 !! length (heap s)
                 = Some (OResult false (VRef a) None))
      by apply lookup_snoc_eq.
    assert (Ha1 : heap s1 !! a = Some (OArray elems))
      by (cbn; now apply lookup_app_l_Some).
    destruct (addError_effect (length (heap s)) error s1 false a elems None
                Hr Ha1) as (s2 & Hrun & _ & Ha2 & _).
    exists (length (heap s)), s1, s2.
    repeat split; try assumption.
    cbn. rewrite length_app. cbn. lia.
  - now apply fail_returns.
  - rewrite fail_default. do 2 eexists. split; [reflexivity|].
    cbn [heap]. split; [apply lookup_second|now apply list_lookup_middle].
Qed.

(** X2.  [addError] turns any Result, a succeeding one included, into a
    failure, appends the error after the errors already there and returns
    the receiver.  The [value] of a former success stays stored, but
    [getOr] answers with the default from then on. *)
Theorem addError_spec (this : addr) (error defaultValue : JsVal) (s : State)
    (v : bool) (e : addr) (errs : list JsVal) (val : option JsVal) :
  heap s !! this = Some (OResult v (VRef e) val) ->
  heap s !! e = Some (OArray errs) ->
  exists s',
    addError this error s = Ret (VRef this) s' /\
    heap s' !! this = Some (OResult false (VRef e) val) /\
    heap s' !! e = Some (OArray (errs ++ [error])) /\
    (forall a, a <> this -> a <> e -> heap s' !! a = heap s !! a) /\
    calls s' = calls s /\
    getOr this defaultValue s' = Ret defaultValue s'.
Proof.
  intros Hthis He.
  destruct (addError_effect this error s v e errs val Hthis He)
    as (s' & Hrun & Hthis' & He' & Hrest & Hcalls).
  exists s'. repeat (split; [assumption|]).
  unfold getOr, bind, get, ret. cbn [Get]. now rewrite Hthis'.
Qed.

(** X3.  [getOr] never raises and changes nothing: it returns the value of a
    success and the default of a failure; whenever [getOrThrow] returns, the
    two agree. *)
Theorem getOr_spec (this : addr) (defaultValue : JsVal) (s : State)
    (v : bool) (e : JsVal) (val : option JsVal) :
  heap s !! this = Some (OResult v e val) ->
  getOr this defaultValue s
  = Ret (if v then default VUndefined val else defaultValue) s /\
  forall x s', getOrThrow this s = Ret x s' ->
               getOr this defaultValue s = Ret x s'.
Proof.
  intros Hthis.
  assert (Hor : getOr this defaultValue s
                = Ret (if v then default VUndefined val else defaultValue) s).
  { unfold getOr, bind, get, ret. cbn [Get]. rewrite Hthis.
    destruct v; cbn; [now rewrite Hthis|reflexivity]. }
  split; [exact Hor|].
  intros x s' Hthrow. rewrite Hor.
  unfold getOrThrow in Hthrow. unfold bind at 1, get at 1 in Hthrow.
  cbn [Get] in Hthrow. rewrite Hthis in Hthrow.
  cbn [String.eqb Ascii.eqb Bool.eqb ToBoolean] in Hthrow.
  destruct v; cbn [negb] in Hthrow.
  - unfold get in Hthrow. cbn [Get] in Hthrow. now rewrite Hthis in Hthrow.
  - exfalso. unfold bind at 1, get at 1 in Hthrow. cbn [Get] in Hthrow.
    rewrite Hthis in Hthrow. cbn [String.eqb Ascii.eqb Bool.eqb] in Hthrow.
    unfold bind, throw in Hthrow.
    destruct (join e ", " s) as [joined s1|ex s1]; [|discriminate].
    destruct (ToString joined s1); discriminate.
Qed.

(** X4.  For an [error] that is neither [undefined] nor an array, merging
    the failure [fail(error)] into a Result has the effect of
    [addError(error)] on it: in both cases the receiver ends up failed with
    [error] appended to its errors.  (Of an array [fail] keeps the elements
    as the errors, and without an argument it has none.) *)
Theorem merge_of_fail_is_addError (this : addr) (error : JsVal) (s : State)
    (v : bool) (e : addr) (errs : list JsVal) (val : option JsVal) :
  heap s !! this = Some (OResult v (VRef e) val) ->
  heap s !! e = Some (OArray errs) ->
  error <> VUndefined -> Array_isArray (heap s) error = false ->
  exists s1 s2,
    (other <- fail error;; merge this other) s = Ret (VRef this) s1 /\
    addError this error s = Ret (VRef this) s2 /\
    heap s1 !! this = Some (OResult false (VRef e) val) /\
    heap s2 !! this = Some (OResult false (VRef e) val) /\
    heap s1 !! e = Some (OArray (errs ++ [error])) /\
    heap s2 !! e = Some (OArray (errs ++ [error])).
Proof.
  intros Hthis He Hu Harr.
  destruct (addError_effect this error s v e errs val Hthis He)
    as (s2 & Hadd & Hthis2 & He2 & _).
  unfold bind at 1. rewrite (fail_returns _ _ Hu Harr). unfold returned_fail.
  set (n := length (heap s)).
  set (sf := mkState (heap s ++ [OArray [error]; OResult false (VRef n) None])
                     (calls s)).
  assert (Hthis_f : heap sf !! this = Some (OResult v (VRef e) val))
    by (cbn; now apply lookup_app_l_Some).
  assert (He_f : heap sf !! e = Some (OArray errs))
    by (cbn; now apply lookup_app_l_Some).
  assert (Ho : heap sf !! S n = Some (OResult false (VRef n) None))
    by apply lookup_second.
  assert (Hoe : heap sf !! n = Some (OArray [error]))
    by (cbn; now apply list_lookup_middle).
  destruct (merge_failing this (S n) sf v e n errs [error] val None
              Hthis_f He_f Ho Hoe) as (s1 & Hrun & Hthis1 & He1 & _).
  exists s1, s2. repeat split; assumption.
Qed.
End MoreResultLaws.

Section Composition.
Context `{Host}.
Import ValidationResult.

(** X5.  On a succeeding Result [map] and [flatMap] invoke the callback
    exactly once, on the stored value.  [map] wraps what the callback
    returns in a fresh success and leaves the receiver alone; [flatMap]
    hands back what the callback returns, whatever it is; an exception of
    the callback escapes from both, and so does the TypeError of calling
    what is not a function. *)
Theorem map_flatMap_succeeding (this : addr) (fn : JsVal) (s : State)
    (e : JsVal) (val : option JsVal) :
  heap s !! this = Some (OResult true e val) ->
  let value := default VUndefined val in
  map this fn s
  = match fn with
    | VFun id =>
        match fun_body id value (heap s) with
        | Ret x h' =>
            returned_ok (mkState h' (calls s ++ [(id, value, Some x)])) x
        | Throw ex h' =>
            Throw ex (mkState h' (calls s ++ [(id, value, None)]))
        end
    | _ => Throw ExnTypeError s
    end /\
  flatMap this fn s
  = match fn with
    | VFun id =>
        match fun_body id value (heap s) with
        | Ret x h' => Ret x (mkState h' (calls s ++ [(id, value, Some x)]))
        | Throw ex h' =>
            Throw ex (mkState h' (calls s ++ [(id, value, None)]))
        end
    | _ => Throw ExnTypeError s
    end.
Proof.
  intros Hthis value. split.
  - rewrite (map_passing _ _ _ _ _ Hthis). fold value. unfold call.
    destruct fn; try reflexivity.
    destruct (fun_body id value (heap s)); [apply ok_returns|reflexivity].
  - rewrite (flatMap_passing _ _ _ _ _ Hthis). fold value. unfold call.
    now destruct fn.
Qed.

Lemma invoke_map_result (r : addr) (fn : JsVal) (s : State) (b : bool)
    (e : JsVal) (val : option JsVal) :
  heap s !! r = Some (OResult b e val) ->
  invoke_map (VRef r) fn s = map r fn s.
Proof. intros Hr. unfold invoke_map. now rewrite Hr. Qed.

Lemma invoke_flatMap_result (r : addr) (fn : JsVal) (s : State) (b : bool)
    (e : JsVal) (val : option JsVal) :
  heap s !! r = Some (OResult b e val) ->
  invoke_flatMap (VRef r) fn s = flatMap r fn s.
Proof. intros Hr. unfold invoke_flatMap. now rewrite Hr. Qed.

Lemma map_pure (this f : nat) (F : JsVal -> JsVal) (s : State) (e : JsVal)
    (val : option JsVal) :
  pure_fn f F ->
  heap s !! this = Some (OResult true e val) ->
  map this (VFun f) s
  = returned_ok (mkState (heap s)
                   (calls s ++ [(f, default VUndefined val,
                                 Some (F (default VUndefined val)))]))
                (F (default VUndefined val)).
Proof.
  intros Hf Hthis. rewrite (map_passing _ _ _ _ _ Hthis). unfold call.
  rewrite Hf. apply ok_returns.
Qed.

(** X6.  The functor law: for callbacks without effect, [r.map(f).map(g)]
    and [r.map(x => g(f(x)))] on a succeeding [r] both return a succeeding
    Result that wraps [g(f(value))]. *)
Theorem map_composes (this f g gf : nat) (F G : JsVal -> JsVal) (s : State)
    (e : JsVal) (val : option JsVal) :
  pure_fn f F -> pure_fn g G -> pure_fn gf (fun x => G (F x)) ->
  heap s !! this = Some (OResult true e val) ->
  let twice := (r <- map this (VFun f);; invoke_map r (VFun g)) s in
  let once := map this (VFun gf) s in
  isValid_of twice = Some true /\ isValid_of once = Some true /\
  value_of twice = Some (G (F (default VUndefined val))) /\
  value_of once = Some (G (F (default VUndefined val))).
Proof.
  intros Hf Hg Hgf Hthis twice once.
  pose proof (map_pure this gf (fun x => G (F x)) s e val Hgf Hthis)
    as Honce.
  fold once in Honce.
  assert (Htwice : exists s2,
            twice = returned_ok s2 (G (F (default VUndefined val)))).
  { unfold twice, bind. rewrite (map_pure this f F s e val Hf Hthis).
    unfold returned_ok at 1.
    match goal with |- context [invoke_map (VRef ?r) _ ?s1] =>
      assert (Hr : heap s1 !! r
                   = Some (OResult true (VRef (length (heap s)))
                             (Some (F (default VUndefined val)))))
        by apply lookup_second;
      rewrite (invoke_map_result r _ s1 _ _ _ Hr);
      rewrite (map_pure r g G s1 _ _ Hg Hr)
    end.
    eexists. reflexivity. }
  destruct Htwice as (s2 & Htwice). rewrite Htwice, Honce.
  unfold isValid_of, value_of, returned_ok. cbn [heap].
  rewrite !lookup_second. auto.
Qed.

(** X7.  Left identity: [ValidationResult.ok(v).flatMap(f)] is [f(v)], run
    in the store that [ok] left behind. *)
Theorem flatMap_left_identity (v fn : JsVal) (s : State) :
  (r <- ok v;; invoke_flatMap r fn) s = call fn v (final (ok v s)).
Proof.
  unfold bind. rewrite ok_returns. unfold returned_ok. cbn [final].
  match goal with |- invoke_flatMap (VRef ?r) _ ?s1 = _ =>
    assert (Hr : heap s1 !! r
                 = Some (OResult true (VRef (length (heap s))) (Some v)))
      by apply lookup_second;
    rewrite (invoke_flatMap_result r _ s1 _ _ _ Hr);
    rewrite (flatMap_passing _ _ _ _ _ Hr)
  end.
  reflexivity.
Qed.

(** X8.  Sequencing stops at the first failure: when [f] answers the value
    of a succeeding [r] with a failing Result, [r.flatMap(f).flatMap(g)]
    returns that very Result and [g] is not invoked; when [f] answers with
    a succeeding Result, the chain continues as [flatMap(g)] on it. *)
Theorem flatMap_chain (this f : nat) (g : JsVal) (s : State) (e : JsVal)
    (val : option JsVal) (r1 : addr) (h1 : list HObj) (b1 : bool)
    (e1 : JsVal) (val1 : option JsVal) :
  heap s !! this = Some (OResult true e val) ->
  fun_body f (default VUndefined val) (heap s) = Ret (VRef r1) h1 ->
  h1 !! r1 = Some (OResult b1 e1 val1) ->
  let s1 := mkState h1 (calls s ++ [(f, default VUndefined val,
                                     Some (VRef r1))]) in
  (x <- flatMap this (VFun f);; invoke_flatMap x g) s
  = if b1 then flatMap r1 g s1 else Ret (VRef r1) s1.
Proof.
  intros Hthis Hf Hr1 s1. unfold bind.
  rewrite (flatMap_passing _ _ _ _ _ Hthis). unfold call at 1. rewrite Hf.
  fold s1. rewrite (invoke_flatMap_result r1 g s1 _ _ _ Hr1).
  destruct b1; [reflexivity|].
  now rewrite (flatMap_failing r1 g s1 e1 val1 Hr1).
Qed.
End Composition.

Section Accumulation.
Context `{Host}.
Import ValidationResult.

Lemma mergeable_ext (h h' : list HObj) (this e o : addr) (b : bool)
    (val : option JsVal) (l : list JsVal) :
  h !! this = Some (OResult b (VRef e) val) -> h !! e = Some (OArray l) ->
  (forall a, a <> this -> a <> e -> h' !! a = h !! a) ->
  mergeable h this e o ->
  mergeable h' this e o /\ h' !! o = h !! o /\
  forall eo vo valo, h !! o = Some (OResult vo (VRef eo) valo) ->
                     h' !! eo = h !! eo.
Proof.
  intros Hthis He Hrest (Hne & vo & eo & valo & oerrs & Ho & Hneo & Heo).
  assert (Hoe : o <> e) by (intros ->; congruence).
  assert (Heot : eo <> this) by (intros ->; congruence).
  assert (Ho' : h' !! o = h !! o) by (apply Hrest; assumption).
  assert (Heo' : h' !! eo = h !! eo) by (apply Hrest; assumption).
  split; [|split; [exact Ho'|]].
  - split; [assumption|]. exists vo, eo, valo, oerrs.
    rewrite Ho', Heo'. auto.
  - intros eo0 vo0 valo0 Ho0. rewrite Ho in Ho0.
    injection Ho0 as _ <- _. exact Heo'.
Qed.

(** X9.  Take a Result and a series of other Results, each of them
    distinct from it and holding an error array that is not the receiver's
    own.  Merging the others into the receiver, one after the other,
    collects the errors of the failing ones behind the receiver's own, in
    the order of the merges; the receiver still succeeds only if it did
    before and every one of the others does; the others and their error
    arrays are left as they were. *)
Theorem merge_accumulates (this : addr) (others : list addr) :
  forall (s : State) (v : bool) (e : addr) (errs : list JsVal)
         (val : option JsVal),
    heap s !! this = Some (OResult v (VRef e) val) ->
    heap s !! e = Some (OArray errs) ->
    Forall (mergeable (heap s) this e) others ->
    let s' := run_ops (List.map (OpMerge this) others) s in
    heap s' !! this
    = Some (OResult (v && all_valid (heap s) others) (VRef e) val) /\
    heap s' !! e = Some (OArray (errs ++ failing_errors (heap s) others)) /\
    (forall a, a <> this -> a <> e -> heap s' !! a = heap s !! a) /\
    calls s' = calls s.
Proof.
  induction others as [|o rest IH]; intros s v e errs val Hthis He Hall.
  - cbn. rewrite andb_true_r, app_nil_r. auto.
  - apply Forall_cons in Hall as [Ho Hrest].
    pose proof Ho as (Hne & vo & eo & valo & oerrs & Hoc & Hneo & Heo).
    cbn [List.map run_ops run_op].
    cbn [all_valid forallb failing_errors flat_map]. rewrite Hoc.
    fold (all_valid (heap s) rest). fold (failing_errors (heap s) rest).
    destruct vo.
    + rewrite (merge_passing _ _ _ _ _ Hoc). cbn [final app andb].
      apply IH; assumption.
    + rewrite Heo.
      destruct (merge_failing this o s v e eo errs oerrs val valo
                  Hthis He Hoc Heo) as (s1 & -> & Hthis1 & He1 & Hrest1 & Hc1).
      cbn [final].
      assert (Hall1 : Forall (mergeable (heap s1) this e) rest).
      { eapply Forall_impl; [exact Hrest|]. intros o' Ho'.
        destruct (mergeable_ext (heap s) (heap s1) this e o' v val errs
                    Hthis He Hrest1 Ho') as [M _].
        exact M. }
      assert (Hsame : all_valid (heap s1) rest = all_valid (heap s) rest
                      /\ failing_errors (heap s1) rest
                         = failing_errors (heap s) rest).
      { clear IH Hall1. induction Hrest as [|o' rest' Ho' _ IHr]; [auto|].
        destruct IHr as [Ea Ef].
        destruct (mergeable_ext (heap s) (heap s1) this e o' v val errs
                    Hthis He Hrest1 Ho') as (_ & Eo & Eeo).
        cbn [all_valid forallb failing_errors flat_map].
        fold (all_valid (heap s1) rest'). fold (all_valid (heap s) rest').
        fold (failing_errors (heap s1) rest').
        fold (failing_errors (heap s) rest').
        rewrite Eo, Ea, Ef. split; [reflexivity|]. f_equal.
        destruct (heap s !! o') as [[| |[] [] ?|]|] eqn:Eo'; try reflexivity.
        now rewrite (Eeo _ _ _ eq_refl). }
      destruct Hsame as [Ea Ef].
      destruct (IH s1 false e (errs ++ oerrs) val Hthis1 He1 Hall1)
        as (Hthis' & He' & Hrest' & Hc').
      rewrite Ea, Ef in *. rewrite andb_false_r. cbn [andb] in Hthis'.
      rewrite <- app_assoc in He'.
      repeat split; try assumption.
      * intros a Ha1 Ha2. rewrite Hrest' by assumption. now apply Hrest1.
      * congruence.
Qed.
End Accumulation.

(** ** Further laws of the field validators *)

Section MoreFieldLaws.
Context `{Host} `{Patterns}.
Import ValidationResult FieldValidators.

Lemma pattern_validator_eq (pattern : string -> bool) (msg : string)
    (value : JsVal) (s : State) :
  (if negb (String.eqb (typeof value) "string")
   then fail (VStr "Value must be a string")
   else matched <- test pattern value;;
        if negb matched then fail (VStr msg) else ok value) s
  = match value with
    | VStr str => if pattern str then returned_ok s value
                  else returned_fail s (VStr msg)
    | _ => returned_fail s (VStr "Value must be a string")
    end.
Proof.
  destruct value as [| |b|x|str|id|a];
    match goal with
    | |- context [negb (String.eqb ?t "string")] =>
        let b := eval vm_compute in (negb (String.eqb t "string")) in
        change (negb (String.eqb t "string")) with b
    end; cbv iota; try apply fail_string.
  unfold test, bind. rewrite ToString_string. unfold ret.
  destruct (pattern str); cbn [negb]; [apply ok_returns|apply fail_string].
Qed.

(** X10.  The four format validators work in two stages: a value that is
    not a string fails with "Value must be a string" and the pattern is not
    consulted; a string succeeds, wrapped as it is, exactly when the pattern
    matches, and fails with the format's own message otherwise. *)
Theorem format_validators_spec (value : JsVal) (s : State) :
  let two_stage (pattern : string -> bool) (msg : string) :=
    match value with
    | VStr str => if pattern str then returned_ok s value
                  else returned_fail s (VStr msg)
    | _ => returned_fail s (VStr "Value must be a string")
    end in
  isUUID value s = two_stage UUID "Value is not a valid UUID" /\
  isEmail value s = two_stage EMAIL "Value is not a valid email address" /\
  isURL value s = two_stage URL "Value is not a valid URL" /\
  isIdentifier value s
  = two_stage IDENTIFIER "Value is not a valid identifier".
Proof. cbv zeta. repeat split; apply pattern_validator_eq. Qed.

Lemma accepts (s : State) (value : JsVal) :
  accepts_or_rejects s value (ok value s).
Proof. left. apply ok_returns. Qed.

Lemma rejects (s : State) (value : JsVal) (msg : string) :
  accepts_or_rejects s value (fail (VStr msg) s).
Proof. right. exists msg. apply fail_string. Qed.

Lemma typed_accepts_or_rejects (ty msg : string) (value : JsVal) (s : State) :
  accepts_or_rejects s value
    ((if negb (String.eqb (typeof value) ty) then fail (VStr msg)
      else ok value) s).
Proof.
  destruct (negb (String.eqb (typeof value) ty));
    auto using accepts, rejects.
Qed.

Lemma format_accepts_or_rejects (pattern : string -> bool) (msg : string)
    (value : JsVal) (s : State) :
  accepts_or_rejects s value
    ((if negb (String.eqb (typeof value) "string")
      then fail (VStr "Value must be a string")
      else matched <- test pattern value;;
           if negb matched then fail (VStr msg) else ok value) s).
Proof.
  rewrite pattern_validator_eq. unfold accepts_or_rejects.
  destruct value as [| |b|x|str|id|a]; eauto. destruct (pattern str); eauto.
Qed.

Lemma isRequired_accepts_or_rejects (value fieldName : JsVal) (s : State) :
  is_primitive fieldName = true ->
  accepts_or_rejects s value (isRequired value fieldName s).
Proof.
  intros Hp.
  destruct (strict_equals value VNull || strict_equals value VUndefined
            || strict_equals value (VStr "")) eqn:Hv.
  - rewrite isRequired_missing by assumption.
    rewrite ToString_primitive by (now destruct fieldName).
    right. eauto.
  - rewrite isRequired_present by assumption. now left.
Qed.

Lemma isNumber_accepts_or_rejects (value : JsVal) (s : State) :
  accepts_or_rejects s value (isNumber value s).
Proof.
  unfold isNumber.
  destruct (negb (String.eqb (typeof value) "number") || isNaN value);
    auto using accepts, rejects.
Qed.

Lemma isArray_accepts_or_rejects (value : JsVal) (s : State) :
  accepts_or_rejects s value (isArray value s).
Proof.
  unfold isArray, bind, get_heap.
  destruct (negb (Array_isArray (heap s) value)); auto using accepts, rejects.
Qed.

Lemma isObject_accepts_or_rejects (value : JsVal) (s : State) :
  accepts_or_rejects s value (isObject value s).
Proof.
  unfold isObject, bind, get_heap.
  destruct (strict_equals value VNull
            || negb (String.eqb (typeof value) "object")
            || Array_isArray (heap s) value); auto using accepts, rejects.
Qed.

Lemma isPort_accepts_or_rejects (value : JsVal) (s : State) :
  is_primitive value = true ->
  accepts_or_rejects s value (isPort value s).
Proof.
  intros Hp. rewrite isPort_eq, ToString_primitive by assumption.
  unfold accepts_or_rejects. destruct (PORT _); eauto.
Qed.

Lemma isOneOf_accepts_or_rejects (value : JsVal) (a : addr)
    (elems : list JsVal) (s : State) :
  heap s !! a = Some (OArray elems) ->
  Forall (fun x => is_primitive x = true) elems ->
  accepts_or_rejects s value (isOneOf value (VRef a) s).
Proof.
  intros Ha Hall. rewrite (isOneOf_array_eq value a elems s Ha).
  unfold accepts_or_rejects.
  destruct (existsb _ elems); [now left|].
  rewrite (Array_join_primitives a s elems ", " Ha Hall). eauto.
Qed.

(** X11.  No validator coerces or reports twice: it either returns a fresh
    success that wraps the value exactly as it was given, or a fresh failure
    with one message and no value; it touches no existing cell and invokes
    no callback.  This holds on every value for the nine validators that
    never convert an argument to a string, for [isRequired] when its field
    name is omitted or is not an object, for [isPort] when the value is not
    an object, and for [isOneOf] when it is given an array of allowed values
    none of which is an object. *)
Theorem validators_accept_or_reject (value : JsVal) (s : State) :
  Forall (accepts_or_rejects s value)
    [isUUID value s; isEmail value s; isString value s; isNumber value s;
     isBoolean value s; isArray value s; isObject value s; isURL value s;
     isIdentifier value s] /\
  (forall fieldName,
     is_primitive fieldName = true ->
     accepts_or_rejects s value (isRequired value fieldName s)) /\
  (is_primitive value = true ->
   accepts_or_rejects s value (isPort value s)) /\
  (forall allowed elems,
     heap s !! allowed = Some (OArray elems) ->
     Forall (fun x => is_primitive x = true) elems ->
     accepts_or_rejects s value (isOneOf value (VRef allowed) s)).
Proof.
  split; [|split; [|split]].
  - repeat (apply Forall_cons; split); try (apply Forall_nil; exact I).
    + apply format_accepts_or_rejects.
    + apply format_accepts_or_rejects.
    + apply typed_accepts_or_rejects.
    + apply isNumber_accepts_or_rejects.
    + apply typed_accepts_or_rejects.
    + apply isArray_accepts_or_rejects.
    + apply isObject_accepts_or_rejects.
    + apply format_accepts_or_rejects.
    + apply format_accepts_or_rejects.
  - intros fieldName Hp. now apply isRequired_accepts_or_rejects.
  - apply isPort_accepts_or_rejects.
  - intros allowed elems Ha Hall.
    now apply (isOneOf_accepts_or_rejects value allowed elems).
Qed.

Lemma SFeqb_refl (x : spec_float) : is_nan x = false -> SFeqb x x = true.
Proof.
  unfold SFeqb. destruct x as [sg|sg| |sg m e]; cbn; try discriminate;
    intros _; try reflexivity.
  - now destruct sg.
  - rewrite Z.compare_refl.
    assert (E : Pos.compare_cont Eq m m = Eq) by apply Pos.compare_refl.
    rewrite E. now destruct sg.
Qed.

Lemma same_value_zero_refl (x : JsVal) : same_value_zero x x = true.
Proof.
  destruct x as [| |b|x|str|id|a]; cbn; try reflexivity.
  - now destruct b.
  - destruct (is_nan x) eqn:E; [reflexivity|]. now rewrite SFeqb_refl.
  - apply String.eqb_refl.
  - apply Nat.eqb_refl.
  - apply Nat.eqb_refl.
Qed.

(** X12.  Given an array of allowed values, [isOneOf] succeeds exactly when
    some element is the same value as the one checked, NaN counting as the
    same as NaN; so every value listed is accepted, NaN included, and
    nothing is converted to a string.  Otherwise the allowed values are
    joined by ", ": when the join returns, [isOneOf] fails with the message
    "Value must be one of: " followed by the joined values; when the
    conversion of an allowed value throws, that exception escapes.  The join
    returns, without effect, whenever no allowed value is an object. *)
Theorem isOneOf_array_spec (value : JsVal) (a : addr) (elems : list JsVal)
    (s : State) :
  heap s !! a = Some (OArray elems) ->
  isOneOf value (VRef a) s
  = (if existsb (fun y => same_value_zero y value) elems
     then returned_ok s value
     else match Array_join a ", " s with
          | Ret joined s1 =>
              returned_fail s1 (VStr ("Value must be one of: " +:+ joined))
          | Throw ex s1 => Throw ex s1
          end) /\
  (In value elems -> isOneOf value (VRef a) s = returned_ok s value) /\
  (Forall (fun x => is_primitive x = true) elems ->
   Array_join a ", " s
   = Ret (String.concat ", " (List.map join_piece elems)) s) /\
  (elems = [] -> isOneOf value (VRef a) s
                 = returned_fail s (VStr "Value must be one of: ")).
Proof.
  intros Ha. rewrite (isOneOf_array_eq _ _ _ _ Ha).
  split; [reflexivity|]. split; [|split].
  - intros Hin.
    assert (E : existsb (fun y => same_value_zero y value) elems = true).
    { apply existsb_exists. exists value.
      split; [assumption|apply same_value_zero_refl]. }
    now rewrite E.
  - intros Hall. now apply Array_join_primitives.
  - intros ->. cbn [existsb].
    now rewrite (Array_join_primitives a s [] ", " Ha (Forall_nil_2 _)).
Qed.

(** X13.  Given a string instead of an array, [isOneOf] searches that
    string for the string form of the value, which for an object is what
    its [toString] returns (when that throws, the exception escapes).  It
    succeeds when the string form occurs in the string.  When it does not,
    and strings have no member [join], as in the standard library,
    [isOneOf] raises a TypeError, for there is no [join] to build the
    message with. *)
Theorem isOneOf_string_spec (value : JsVal) (allowed : string) (s : State) :
  inherited KString "join" = VUndefined ->
  isOneOf value (VStr allowed) s
  = match ToString value s with
    | Ret needle s1 =>
        if is_substring needle allowed then returned_ok s1 value
        else Throw ExnTypeError s1
    | Throw ex s1 => Throw ex s1
    end.
Proof.
  intros Hjoin. unfold isOneOf. unfold bind at 1. unfold includes.
  unfold bind at 1.
  destruct (ToString value s) as [needle s1|ex s1]; [|reflexivity].
  unfold ret. cbn [ToBoolean].
  destruct (is_substring needle allowed); cbn [negb].
  - apply ok_returns.
  - unfold bind at 1. unfold join. unfold bind at 1. unfold get.
    assert (E : Get (heap s1) (VStr allowed) "join" = Some VUndefined).
    { cbn [Get]. change (String.eqb "join" "length") with false.
      change (array_index "join") with (@None N). cbv iota.
      now rewrite Hjoin. }
    rewrite E. reflexivity.
Qed.

(** X14.  The type validators decide as [isType] does: [isString],
    [isBoolean], [isArray] and [isObject] succeed exactly when [isType]
    holds for 'string', 'boolean', 'array' and 'object'; [isNumber]
    succeeds exactly when [isType] holds for 'number' and the value is not
    NaN. *)
Theorem type_validators_agree_with_isType (value : JsVal) (s : State) :
  isValid_of (isString value s)
  = Some (isType (heap s) value (VStr "string")) /\
  isValid_of (isBoolean value s)
  = Some (isType (heap s) value (VStr "boolean")) /\
  isValid_of (isArray value s)
  = Some (isType (heap s) value (VStr "array")) /\
  isValid_of (isObject value s)
  = Some (isType (heap s) value (VStr "object")) /\
  isValid_of (isNumber value s)
  = Some (isType (heap s) value (VStr "number") && negb (isNaN value)).
Proof.
  assert (Hok : forall v, isValid_of (ok v s) = Some true).
  { intros v. rewrite ok_returns. unfold isValid_of, returned_ok.
    cbn [heap]. now rewrite lookup_second. }
  assert (Hfail : forall msg, isValid_of (fail (VStr msg) s) = Some false).
  { intros msg. rewrite fail_string. unfold isValid_of, returned_fail.
    cbn [heap]. now rewrite lookup_second. }
  assert (Ety : forall ty,
            In ty ["string"; "boolean"; "number"] ->
            isType (heap s) value (VStr ty) = String.eqb (typeof value) ty).
  { intros ty [<-|[<-|[<-|[]]]]; reflexivity. }
  assert (Earr : isType (heap s) value (VStr "array")
                 = Array_isArray (heap s) value) by reflexivity.
  assert (Eobj : isType (heap s) value (VStr "object")
                 = negb (strict_equals value VNull)
                   && String.eqb (typeof value) "object"
                   && negb (Array_isArray (heap s) value)) by reflexivity.
  rewrite (Ety "string"), (Ety "boolean"), (Ety "number"), Earr, Eobj
    by (cbn; tauto).
  repeat split.
  - unfold isString.
    destruct (String.eqb (typeof value) "string"); cbn [negb]; auto.
  - unfold isBoolean.
    destruct (String.eqb (typeof value) "boolean"); cbn [negb]; auto.
  - unfold isArray, bind, get_heap.
    destruct (Array_isArray (heap s) value); cbn [negb]; auto.
  - unfold isObject, bind, get_heap.
    destruct (strict_equals value VNull),
             (String.eqb (typeof value) "object"),
             (Array_isArray (heap s) value); cbn [negb orb andb]; auto.
  - unfold isNumber.
    destruct (String.eqb (typeof value) "number"), (isNaN value);
      cbn [negb orb andb]; auto.
Qed.
End MoreFieldLaws.

(** ** Further laws of the schema validator *)

Section MoreSchemaLaws.
Context `{Host} `{Patterns}.
Import ValidationResult FieldValidators SchemaValidator.

Lemma accepting_validator (id : nat) (V : JsVal -> M JsVal) :
  (forall arg h, fun_body id arg h = as_body (V arg) h) ->
  (forall arg s, accepts_or_rejects s arg (V arg s)) ->
  validator_fn (VFun id).
Proof.
  intros Hbody Hacc. exists id. split; [reflexivity|]. intros arg h.
  rewrite Hbody. unfold as_body.
  destruct (Hacc arg (mkState h [])) as [->|(msg & ->)];
    unfold returned_ok, returned_fail; cbn [heap];
    do 5 eexists; (split; [reflexivity|apply lookup_second]).
Qed.

(** X15.  Each of the ten field validators that take the value alone and
    do not convert it to a string ([isUUID], [isEmail], [isRequired] with
    its default field name, [isString], [isNumber], [isBoolean], [isArray],
    [isObject], [isURL], [isIdentifier]) keeps the contract [validate] asks
    of a rule: as a rule it returns a Result on every value, raises nothing
    and leaves the existing cells as they are. *)
Theorem field_validators_are_rules (id : nat) (V : JsVal -> M JsVal) :
  In V rule_validators ->
  (forall arg h, fun_body id arg h = as_body (V arg) h) ->
  validator_fn (VFun id).
Proof.
  intros Hin Hbody. apply (accepting_validator id V Hbody).
  intros arg s. cbn [rule_validators In] in Hin.
  repeat (destruct Hin as [<-|Hin]); try contradiction.
  - apply format_accepts_or_rejects.
  - apply format_accepts_or_rejects.
  - now apply isRequired_accepts_or_rejects.
  - apply typed_accepts_or_rejects.
  - apply isNumber_accepts_or_rejects.
  - apply typed_accepts_or_rejects.
  - apply isArray_accepts_or_rejects.
  - apply isObject_accepts_or_rejects.
  - apply format_accepts_or_rejects.
  - apply format_accepts_or_rejects.
Qed.

Lemma validate_unfold (this : addr) (data rules : JsVal) (s : State)
    (ents : list (string * JsVal)) :
  heap s !! this = Some (OSchemaValidator rules) ->
  valid_ref (heap s) rules ->
  Object_entries (heap s) rules = Some ents ->
  validate this data s
  = match validate_loop (VRef (length (heap s))) data ents
            (mkState (heap s ++ [OArray []]) (calls s)) with
    | Ret _ s2 =>
        match array_length (VRef (length (heap s))) s2 with
        | Ret len s3 =>
            if 0 <? len then fail (VRef (length (heap s))) s3
            else ok data s3
        | Throw e s3 => Throw e s3
        end
    | Throw e s2 => Throw e s2
    end.
Proof.
  intros Hthis Hvr Hents.
  assert (Hlt : this < length (heap s)) by (eapply lookup_lt_Some; eauto).
  unfold validate. unfold bind at 1. unfold alloc at 1.
  unfold bind at 1. unfold get at 1. cbn [heap Get].
  rewrite lookup_app_l by assumption. rewrite Hthis.
  cbn [String.eqb Ascii.eqb Bool.eqb].
  unfold bind at 1. unfold entries at 1. cbn [heap].
  rewrite Object_entries_app by assumption. rewrite Hents.
  unfold bind at 1.
  destruct (validate_loop _ data ents _) as [[] s2|e s2]; [|reflexivity].
  unfold bind at 1.
  destruct (array_length _ s2) as [len s3|e s3]; [|reflexivity].
  now destruct (0 <? len).
Qed.

(** X16.  Without rules [validate] reads nothing of its argument: it
    returns a success that wraps the argument for every value, [null] and
    [undefined] included; so does [validateSchema] when no rule mapping is
    given, the constructor supplying a fresh empty one. *)
Theorem validate_without_rules (this ra : addr) (data : JsVal) (s : State) :
  heap s !! this = Some (OSchemaValidator (VRef ra)) ->
  heap s !! ra = Some (OPlain []) ->
  validate this data s
  = returned_ok (mkState (heap s ++ [OArray []]) (calls s)) data /\
  isValid_of (validateSchema data VUndefined s) = Some true /\
  value_of (validateSchema data VUndefined s) = Some data.
Proof.
  intros Hthis Hra.
  assert (Hgen : forall this ra s,
            heap s !! this = Some (OSchemaValidator (VRef ra)) ->
            heap s !! ra = Some (OPlain []) ->
            validate this data s
            = returned_ok (mkState (heap s ++ [OArray []]) (calls s)) data).
  { clear. intros this ra s Hthis Hra.
    rewrite (validate_unfold this data (VRef ra) s []); try assumption.
    - cbn [validate_loop ret]. unfold array_length. cbn [heap].
      rewrite lookup_snoc_eq. cbn [length Nat.ltb Nat.leb]. apply ok_returns.
    - cbn. eapply lookup_lt_Some; eauto.
    - cbn. now rewrite Hra. }
  split; [now apply (Hgen this ra)|].
  unfold validateSchema, SchemaValidator.new, bind, alloc, ret.
  cbn [heap calls].
  erewrite (Hgen _ (length (heap s))).
  - unfold isValid_of, value_of, returned_ok. cbn [heap].
    rewrite !lookup_second. auto.
  - cbn [heap]. apply lookup_snoc_eq.
  - cbn [heap]. rewrite lookup_app_l by (rewrite length_app; cbn; lia).
    apply lookup_snoc_eq.
Qed.

(** X17.  The default of the constructor stands in for [undefined] only:
    a validator constructed with [null] keeps [null] as its rules, and then
    [validate] raises a TypeError on every argument and [addRule] on every
    rule. *)
Theorem null_rules_raise (data fieldName validator : JsVal) (s : State) :
  let s1 := mkState (heap s ++ [OSchemaValidator VNull]) (calls s) in
  SchemaValidator.new VNull s = Ret (length (heap s)) s1 /\
  validate (length (heap s)) data s1
  = Throw ExnTypeError (mkState (heap s1 ++ [OArray []]) (calls s)) /\
  addRule (length (heap s)) fieldName validator s1
  = Some (Throw ExnTypeError s1).
Proof.
  intros s1.
  assert (Hthis : heap s1 !! length (heap s) = Some (OSchemaValidator VNull))
    by apply lookup_snoc_eq.
  split; [reflexivity|]. split.
  - unfold validate, bind, alloc, get, entries. cbn [heap calls Get].
    rewrite lookup_app_l by (cbn; rewrite length_app; cbn; lia).
    now rewrite Hthis.
  - unfold addRule. cbn [Get]. now rewrite Hthis.
Qed.
End MoreSchemaLaws.

Section RuleOrder.
Context `{Host}.
Import ValidationResult SchemaValidator.

Lemma validate_loop_app (errors data : JsVal)
    (pre rest : list (string * JsVal)) (s : State) :
  validate_loop errors data (pre ++ rest) s
  = match validate_loop errors data pre s with
    | Ret _ s1 => validate_loop errors data rest s1
    | Throw e s1 => Throw e s1
    end.
Proof.
  revert s. induction pre as [|[k fn] pre IH]; intros s; [reflexivity|].
  cbn [app validate_loop]. unfold bind.
  destruct (get data k s) as [value s1|e s1]; [|reflexivity].
  destruct (call fn value s1) as [result s2|e s2]; [|reflexivity].
  destruct (get result "isValid" s2) as [isValid s3|e s3]; [|reflexivity].
  destruct (negb (ToBoolean isValid)).
  - destruct (get result "errors" s3) as [errs s4|e s4]; [|reflexivity].
    destruct (alloc _ s4) as [rec s5|e s5]; [|reflexivity].
    destruct (push errors [VRef rec] s5) as [[] s6|e s6]; [|reflexivity].
    apply IH.
  - unfold ret. apply IH.
Qed.

(** X18.  [validate] has no handler around its rules.  When the rules
    before a certain one are validators and calling that one on
    [data[fieldName]] (an own or inherited property of [data], else
    [undefined]) raises (it is not a function, or it throws), [validate]
    raises the same exception, having invoked the earlier rules and none of
    the later ones. *)
Theorem validate_stops_at_raising_rule (this : addr) (data rules : JsVal)
    (s : State) (pre post : list (string * JsVal)) (k : string)
    (fn : JsVal) (ex : JsExn) :
  heap s !! this = Some (OSchemaValidator rules) ->
  valid_ref (heap s) rules ->
  Object_entries (heap s) rules = Some (pre ++ (k, fn) :: post) ->
  Forall (fun kv => validator_fn (snd kv)) pre ->
  data <> VUndefined -> data <> VNull -> valid_ref (heap s) data ->
  raises fn (default VUndefined (Get (heap s) data k)) ex ->
  exists s' outs,
    validate this data s = Throw ex s' /\
    length outs = length pre /\
    calls s'
    = calls s ++ invocations (heap s) data pre outs
      ++ raised_call fn (default VUndefined (Get (heap s) data k)).
Proof.
  intros Hthis Hvr Hents Hpre Hu Hn Hvd Hraise.
  set (n := length (heap s)).
  set (s1 := mkState (heap s ++ [OArray []]) (calls s)).
  assert (F1 : frame n (heap s) (heap s1)) by apply frame_app.
  assert (Hdn : data <> VRef n).
  { intros ->. cbn in Hvd. unfold n in Hvd. lia. }
  destruct (validate_loop_spec n data pre Hpre Hu Hn Hdn s1 [])
    as (s2 & outs & recs & Hrun & F & _ & Hc & Hl & _).
  { apply lookup_snoc_eq. }
  { eapply valid_ref_frame; eauto. }
  assert (F2 : frame n (heap s) (heap s2)) by (eapply frame_trans; eauto).
  rewrite (validate_unfold this data rules s _ Hthis Hvr Hents).
  fold n. fold s1. rewrite validate_loop_app, Hrun.
  cbn [validate_loop]. unfold bind at 1. unfold get at 1.
  rewrite (Get_some _ _ _ Hu Hn).
  rewrite (Get_frame n (heap s) (heap s2)) by assumption.
  set (x := default VUndefined (Get (heap s) data k)) in *.
  assert (Hinv : invocations (heap s1) data pre outs
                 = invocations (heap s) data pre outs)
    by (apply (invocations_frame n); assumption).
  unfold bind at 1. unfold call at 1.
  destruct fn as [| |b|y|str|id|a]; cbn [raises raised_call] in *;
    try (subst ex; exists s2, outs; split; [reflexivity|];
         split; [exact Hl|];
         rewrite Hc, Hinv, app_nil_r; reflexivity).
  destruct (Hraise (heap s2)) as (h' & Hthrow). rewrite Hthrow.
  eexists _, outs. split; [reflexivity|]. split; [exact Hl|].
  cbn [calls]. rewrite Hc, Hinv, <- app_assoc. reflexivity.
Qed.

Lemma insert_by_index_perm x l : Permutation (insert_by_index x l) (x :: l).
Proof.
  induction l as [|y l IH]; cbn; [reflexivity|].
  destruct (fst x <? fst y)%N; [reflexivity|].
  rewrite IH. apply perm_swap.
Qed.

Lemma sorted_index_props_perm l :
  Permutation (fold_right insert_by_index [] l) l.
Proof.
  induction l as [|x l IH]; cbn; [reflexivity|].
  rewrite insert_by_index_perm. now rewrite IH.
Qed.

Lemma enumeration_order_perm props :
  Permutation (enumeration_order props) props.
Proof.
  unfold enumeration_order. rewrite sorted_index_props_perm.
  unfold index_props, is_index_key.
  induction props as [|kv props IH]; cbn; [reflexivity|].
  destruct (array_index (fst kv)); cbn.
  - now rewrite IH.
  - rewrite <- Permutation_middle. now rewrite IH.
Qed.

(** X19.  Whether or not some field names are array indices, [validate]
    on a data object invokes every rule of the mapping exactly once, on
    [data[fieldName]] (an own or inherited property of [data], else
    [undefined]): the invocations it makes are a rearrangement of the
    rules. *)
Theorem validate_invokes_every_rule_once (this rulesAddr : addr)
    (data : JsVal) (props : list (string * JsVal)) (s : State) :
  heap s !! this = Some (OSchemaValidator (VRef rulesAddr)) ->
  heap s !! rulesAddr = Some (OPlain props) ->
  data <> VUndefined -> data <> VNull -> valid_ref (heap s) data ->
  Forall (fun kv => validator_fn (snd kv)) props ->
  exists s' r new,
    validate this data s = Ret (VRef r) s' /\
    calls s' = calls s ++ new /\
    Permutation
      (List.map (fun c => (fst (fst c), snd (fst c))) new)
      (List.map (fun kv => (fn_index (snd kv),
                            default VUndefined (Get (heap s) data (fst kv))))
                props).
Proof.
  intros Hthis Hrules Hu Hn Hvd Hfns.
  assert (Hents : Object_entries (heap s) (VRef rulesAddr)
                  = Some (enumeration_order props))
    by (cbn; now rewrite Hrules).
  assert (Hfns' : Forall (fun kv => validator_fn (snd kv))
                    (enumeration_order props)).
  { rewrite Forall_forall in *. intros kv Hin. apply Hfns.
    apply list_elem_of_In. apply in_enumeration_order.
    now apply list_elem_of_In. }
  destruct (validate_general this data (VRef rulesAddr) s
              (enumeration_order props) Hthis)
    as (s' & r & outs & recs & e & Hrun & _ & Hc & Hl & _);
    try assumption.
  { cbn. eapply lookup_lt_Some; eauto. }
  exists s', r, (invocations (heap s) data (enumeration_order props) outs).
  split; [exact Hrun|]. split; [exact Hc|].
  rewrite <- (enumeration_order_perm props) at 2.
  assert (E : forall ents outs, length outs = length ents ->
            List.map (fun c : nat * JsVal * option JsVal =>
                        (fst (fst c), snd (fst c)))
              (invocations (heap s) data ents outs)
            = List.map (fun kv => (fn_index (snd kv),
                                   default VUndefined
                                     (Get (heap s) data (fst kv))))
                ents).
  { clear. unfold invocations.
    induction ents as [|kv ents IH]; intros [|o outs] Hlen;
      try discriminate; [reflexivity|].
    cbn [zip_with List.map fst snd]. f_equal.
    apply IH. now injection Hlen. }
  now rewrite E.
Qed.
End RuleOrder.

Section RuleInsertion.
Context `{Host}.
Import SchemaValidator.

Lemma assoc_set_own_eq key v props : assoc key (set_own key v props) = Some v.
Proof.
  induction props as [|[k x] props IH]; cbn.
  - now rewrite String.eqb_refl.
  - destruct (String.eqb k key) eqn:E; cbn; rewrite E; auto.
Qed.

Lemma assoc_set_own_ne key k' v props :
  k' <> key -> assoc k' (set_own key v props) = assoc k' props.
Proof.
  intros Hne. induction props as [|[k x] props IH]; cbn.
  - apply String.eqb_neq in Hne. rewrite String.eqb_sym. now rewrite Hne.
  - destruct (String.eqb k key) eqn:E; cbn.
    + apply String.eqb_eq in E. subst k.
      destruct (String.eqb key k') eqn:E'; [|reflexivity].
      apply String.eqb_eq in E'. congruence.
    + now rewrite IH.
Qed.

Lemma set_own_new key v props :
  assoc key props = None -> set_own key v props = props ++ [(key, v)].
Proof.
  induction props as [|[k x] props IH]; cbn; [reflexivity|].
  destruct (String.eqb k key); [discriminate|]. intros Hn. now rewrite IH.
Qed.

Lemma set_own_keys key v props :
  List.map fst (set_own key v props)
  = match assoc key props with
    | Some _ => List.map fst props
    | None => List.map fst props ++ [key]
    end.
Proof.
  induction props as [|[k x] props IH]; cbn; [reflexivity|].
  destruct (String.eqb k key) eqn:E; cbn; [reflexivity|].
  rewrite IH. now destruct (assoc key props).
Qed.

Lemma addRule_plain (this ra : addr) (props : list (string * JsVal))
    (fieldName validator : JsVal) (s : State) :
  heap s !! this = Some (OSchemaValidator (VRef ra)) ->
  heap s !! ra = Some (OPlain props) ->
  is_primitive fieldName = true ->
  primitive_to_string fieldName <> "__proto__" ->
  addRule this fieldName validator s
  = Some (Ret (VRef this)
            (mkState (<[ra:=OPlain (set_own (primitive_to_string fieldName)
                                      validator props)]> (heap s))
                     (calls s))).
Proof.
  intros Hthis Hra Hp Hkey. unfold addRule. cbn [Get]. rewrite Hthis.
  cbn [String.eqb Ascii.eqb Bool.eqb].
  rewrite ToString_primitive by assumption. rewrite Hra.
  unfold put_own. apply String.eqb_neq in Hkey. now rewrite Hkey.
Qed.

(** X20.  Take a validator whose rules are an ordinary object and a field
    name that is not an object (a string, say) and whose string form, the
    property key, is not '__proto__'.  [addRule] returns the validator
    itself and stores the rule in the rules object: reading the key back
    gives the validator just added, every other name reads as before, and
    no other cell changes.  A name that was already there keeps its place
    among the properties; a new name is added after them. *)
Theorem addRule_spec (this ra : addr) (props : list (string * JsVal))
    (fieldName validator : JsVal) (s : State) :
  heap s !! this = Some (OSchemaValidator (VRef ra)) ->
  heap s !! ra = Some (OPlain props) ->
  is_primitive fieldName = true ->
  let key := primitive_to_string fieldName in
  key <> "__proto__" ->
  exists s' props',
    addRule this fieldName validator s = Some (Ret (VRef this) s') /\
    calls s' = calls s /\
    heap s' !! ra = Some (OPlain props') /\
    (forall a, a <> ra -> heap s' !! a = heap s !! a) /\
    Get (heap s') (VRef ra) key = Some validator /\
    (forall k', k' <> key ->
       Get (heap s') (VRef ra) k' = Get (heap s) (VRef ra) k') /\
    List.map fst props'
    = match assoc key props with
      | Some _ => List.map fst props
      | None => List.map fst props ++ [key]
      end.
Proof.
  intros Hthis Hra Hp key Hkey.
  assert (Hlt : ra < length (heap s)) by (eapply lookup_lt_Some; eauto).
  rewrite (addRule_plain this ra props fieldName validator s Hthis Hra Hp Hkey).
  fold key. eexists _, (set_own key validator props).
  split; [reflexivity|]. cbn [heap calls].
  assert (Hra' : <[ra:=OPlain (set_own key validator props)]> (heap s) !! ra
                 = Some (OPlain (set_own key validator props)))
    by now apply list_lookup_insert_eq.
  split; [reflexivity|]. split; [exact Hra'|]. split.
  { intros a Ha. now apply list_lookup_insert_ne. }
  split.
  { cbn [Get]. rewrite Hra'. now rewrite assoc_set_own_eq. }
  split.
  { intros k' Hk. cbn [Get]. rewrite Hra', Hra.
    now rewrite assoc_set_own_ne. }
  apply set_own_keys.
Qed.

Lemma index_props_app l1 l2 :
  index_props (l1 ++ l2) = index_props l1 ++ index_props l2.
Proof.
  unfold index_props. induction l1 as [|kv l1 IH]; cbn; [reflexivity|].
  destruct (array_index (fst kv)); cbn; now rewrite IH.
Qed.

Lemma index_props_single key v :
  index_props [(key, v)]
  = match array_index key with Some i => [(i, (key, v))] | None => [] end.
Proof. unfold index_props. cbn. now destruct (array_index key). Qed.

Lemma filter_single key (v : JsVal) :
  List.filter (fun kv => negb (is_index_key (fst kv))) [(key, v)]
  = if is_index_key key then [] else [(key, v)].
Proof. cbn. now destruct (is_index_key key). Qed.

Lemma plain_keys (props : list (string * JsVal)) :
  forallb (fun kv => negb (is_index_key (fst kv))) props = true ->
  index_props props = []
  /\ List.filter (fun kv => negb (is_index_key (fst kv))) props = props
  /\ forall key, is_index_key key = true -> assoc key props = None.
Proof.
  unfold index_props, is_index_key.
  induction props as [|[k x] props IH]; cbn; [auto|].
  destruct (array_index k) eqn:Ek; cbn; [discriminate|].
  intros Hall. destruct (IH Hall) as (-> & -> & Hno).
  repeat split. intros key Hkey.
  destruct (String.eqb k key) eqn:E; [|now apply Hno].
  apply String.eqb_eq in E. subst key. now rewrite Ek in Hkey.
Qed.

(** X21.  Where a rule added by [addRule] runs, for rules that are an
    ordinary object and a field name that is not an object and whose string
    form, the property key, is not '__proto__'.  Under a new name that is
    not an array index the rule is enumerated, and so validated, after all
    the rules there were.  Under an array-index name, added to rules none
    of which has such a name, it is enumerated before all of them. *)
Theorem addRule_position (this ra : addr) (props : list (string * JsVal))
    (fieldName validator : JsVal) (s : State) :
  heap s !! this = Some (OSchemaValidator (VRef ra)) ->
  heap s !! ra = Some (OPlain props) ->
  is_primitive fieldName = true ->
  let key := primitive_to_string fieldName in
  key <> "__proto__" ->
  exists s',
    addRule this fieldName validator s = Some (Ret (VRef this) s') /\
    (assoc key props = None -> is_index_key key = false ->
     Object_entries (heap s') (VRef ra)
     = Some (enumeration_order props ++ [(key, validator)])) /\
    (forallb (fun kv => negb (is_index_key (fst kv))) props = true ->
     is_index_key key = true ->
     Object_entries (heap s') (VRef ra) = Some ((key, validator) :: props)).
Proof.
  intros Hthis Hra Hp key Hkey.
  assert (Hlt : ra < length (heap s)) by (eapply lookup_lt_Some; eauto).
  rewrite (addRule_plain this ra props fieldName validator s Hthis Hra Hp Hkey).
  fold key. eexists. split; [reflexivity|]. cbn [heap Object_entries].
  rewrite list_lookup_insert_eq by assumption.
  split.
  - intros Hnew Hidx. rewrite (set_own_new _ _ _ Hnew).
    unfold enumeration_order.
    rewrite index_props_app, List.filter_app, index_props_single,
      filter_single, Hidx.
    unfold is_index_key in Hidx.
    destruct (array_index key); [discriminate|].
    now rewrite app_nil_r, app_assoc.
  - intros Hplain Hidx.
    destruct (plain_keys props Hplain) as (Hip & Hfil & Hno).
    rewrite (set_own_new _ _ _ (Hno key Hidx)).
    unfold enumeration_order.
    rewrite index_props_app, List.filter_app, Hip, Hfil, index_props_single,
      filter_single, Hidx.
    unfold is_index_key in Hidx.
    destruct (array_index key); [|discriminate].
    cbn. now rewrite app_nil_r.
Qed.

(** X22.  The constructor keeps the rule mapping it is given and does not
    copy it: of two validators built from one mapping, an ordinary object,
    a rule added through the first is a rule of the second, and of the
    caller's object, as well.  The rule is added under a field name that is
    not an object and whose string form, the property key, is not
    '__proto__'. *)
Theorem rule_mapping_is_shared (ra : addr) (props : list (string * JsVal))
    (fieldName validator : JsVal) (s : State) :
  heap s !! ra = Some (OPlain props) ->
  is_primitive fieldName = true ->
  let first := length (heap s) in
  let second := S (length (heap s)) in
  let s1 := mkState (heap s ++ [OSchemaValidator (VRef ra);
                                OSchemaValidator (VRef ra)]) (calls s) in
  let key := primitive_to_string fieldName in
  key <> "__proto__" ->
  (a <- new (VRef ra);; b <- new (VRef ra);; ret (a, b)) s
  = Ret (first, second) s1 /\
  exists s2,
    addRule first fieldName validator s1 = Some (Ret (VRef first) s2) /\
    Get (heap s2) (VRef second) "rules" = Some (VRef ra) /\
    Get (heap s2) (VRef ra) key = Some validator /\
    Object_entries (heap s2) (VRef ra)
    = Some (enumeration_order (set_own key validator props)).
Proof.
  intros Hra Hp first second s1 key Hkey.
  assert (Hlt : ra < length (heap s)) by (eapply lookup_lt_Some; eauto).
  assert (Hlt1 : ra < length (heap s1))
    by (cbn; rewrite length_app; lia).
  assert (H1 : heap s1 !! first = Some (OSchemaValidator (VRef ra)))
    by (cbn; now apply list_lookup_middle).
  assert (H2 : heap s1 !! second = Some (OSchemaValidator (VRef ra)))
    by apply lookup_second.
  assert (Hra1 : heap s1 !! ra = Some (OPlain props))
    by (cbn; now apply lookup_app_l_Some).
  split.
  - unfold new, bind, alloc, ret. cbn [heap calls].
    rewrite length_app. cbn [length].
    replace (length (heap s) + 1) with (S (length (heap s))) by lia.
    now rewrite <- app_assoc.
  - rewrite (addRule_plain first ra props fieldName validator s1 H1 Hra1
               Hp Hkey).
    fold key. eexists. split; [reflexivity|]. cbn [heap].
    assert (Hra2 : <[ra:=OPlain (set_own key validator props)]> (heap s1) !! ra
                   = Some (OPlain (set_own key validator props)))
      by now apply list_lookup_insert_eq.
    split.
    { cbn [Get]. rewrite list_lookup_insert_ne by (unfold second; lia).
      now rewrite H2. }
    split.
    { cbn [Get]. rewrite Hra2. now rewrite assoc_set_own_eq. }
    cbn [Object_entries]. now rewrite Hra2.
Qed.
End RuleInsertion.

(** ** Further concrete runs *)

Section MoreRuns.
Import ValidationResult FieldValidators SchemaValidator.
#[local] Existing Instance sample_host.
#[local] Existing Instance sample_patterns.

(** X1 at the caller's array ['e']. *)
Lemma fail_keeps_the_array_witness :
  let s := mkState [OArray [VStr "e"]] [] in
  exists r s1 s2,
    fail (VRef 0) s = Ret (VRef r) s1 /\
    addError r (VStr "late") s1 = Ret (VRef r) s2 /\
    heap s2 !! 0 = Some (OArray [VStr "e"; VStr "late"]).
Proof.
  intros s.
  destruct (fail_keeps_the_array 0 [VStr "e"] (VStr "late") (VStr "x") s
              eq_refl) as ((r & s1 & s2 & Hf & _ & _ & Ha & Harr) & _).
  - discriminate.
  - reflexivity.
  - exists r, s1, s2. repeat split; assumption.
Defined.

(** X2 at a success that wraps 'v'. *)
Lemma addError_spec_witness :
  let s := mkState [OArray []; OResult true (VRef 0) (Some (VStr "v"))] [] in
  exists s',
    addError 1 (VStr "e") s = Ret (VRef 1) s' /\
    heap s' !! 1 = Some (OResult false (VRef 0) (Some (VStr "v"))) /\
    getOr 1 (VStr "d") s' = Ret (VStr "d") s'.
Proof.
  intros s.
  destruct (addError_spec 1 (VStr "e") (VStr "d") s true 0 []
              (Some (VStr "v")) eq_refl eq_refl)
    as (s' & Hrun & Hthis & _ & _ & _ & Hor).
  exists s'. repeat split; assumption.
Defined.

(** X3 at a failure. *)
Lemma getOr_spec_witness :
  let s := mkState [OArray [VStr "e"]; OResult false (VRef 0) None] [] in
  getOr 1 (VStr "d") s = Ret (VStr "d") s.
Proof.
  intros s.
  destruct (getOr_spec 1 (VStr "d") s false (VRef 0) None eq_refl)
    as [Hor _].
  exact Hor.
Defined.

(** X4 at a fresh success and the error 'e'. *)
Lemma merge_of_fail_is_addError_witness :
  let s := mkState [OArray []; OResult true (VRef 0) (Some (VStr "v"))] [] in
  exists s1 s2,
    (other <- fail (VStr "e");; merge 1 other) s = Ret (VRef 1) s1 /\
    addError 1 (VStr "e") s = Ret (VRef 1) s2 /\
    heap s1 !! 0 = heap s2 !! 0.
Proof.
  intros s.
  destruct (merge_of_fail_is_addError 1 (VStr "e") s true 0 []
              (Some (VStr "v")) eq_refl eq_refl)
    as (s1 & s2 & Hm & Ha & _ & _ & He1 & He2).
  - discriminate.
  - reflexivity.
  - exists s1, s2. repeat split; try assumption. congruence.
Defined.

(** X5 at a success and the function that throws. *)
Lemma map_flatMap_succeeding_witness :
  let s := mkState [OArray []; OResult true (VRef 0) (Some (VStr "v"))] [] in
  map 1 (VFun 0) s
  = Throw (ExnThrown (VStr "boom"))
      (mkState (heap s) [(0, VStr "v", None)]) /\
  flatMap 1 VNull s = Throw ExnTypeError s.
Proof.
  intros s.
  destruct (map_flatMap_succeeding 1 (VFun 0) s (VRef 0) (Some (VStr "v"))
              eq_refl) as [Hm _].
  destruct (map_flatMap_succeeding 1 VNull s (VRef 0) (Some (VStr "v"))
              eq_refl) as [_ Hf].
  split; assumption.
Defined.

(** X6 at the callbacks that append "a" and "b". *)
Lemma map_composes_witness :
  let s := mkState [OArray []; OResult true (VRef 0) (Some (VStr "v"))] [] in
  value_of ((r <- map (H:=pure_host) 1 (VFun 0);;
             invoke_map (H:=pure_host) r (VFun 1)) s)
  = Some (VStr "vab") /\
  value_of (map (H:=pure_host) 1 (VFun 2) s) = Some (VStr "vab").
Proof.
  intros s.
  destruct (map_composes (H:=pure_host) 1 0 1 2 (append_to "a")
              (append_to "b") s (VRef 0) (Some (VStr "v")))
    as (_ & _ & Htwice & Honce); try (intros arg h; reflexivity).
  - reflexivity.
  - split; assumption.
Defined.

(** X8 at a callback that fails. *)
Lemma flatMap_chain_witness :
  let s := mkState [OArray []; OResult true (VRef 0) (Some (VStr "v"))] [] in
  (x <- flatMap 1 (VFun 4);; invoke_flatMap x (VFun 0)) s
  = Ret (VRef 3)
      (mkState (heap s ++ [OArray [VStr "bad"]; OResult false (VRef 2) None])
               [(4, VStr "v", Some (VRef 3))]).
Proof.
  intros s.
  exact (flatMap_chain 1 4 (VFun 0) s (VRef 0) (Some (VStr "v")) 3
           (heap s ++ [OArray [VStr "bad"]; OResult false (VRef 2) None])
           false (VRef 2) None eq_refl eq_refl eq_refl).
Defined.

(** X9 at a success merged with a failure, a success and a failure. *)
Lemma merge_accumulates_witness :
  let s := mkState [OArray []; OResult true (VRef 0) (Some (VStr "v"));
                    OArray [VStr "e1"]; OResult false (VRef 2) None;
                    OArray []; OResult true (VRef 4) (Some (VStr "w"));
                    OArray [VStr "e2"; VStr "e3"];
                    OResult false (VRef 6) None] [] in
  heap (run_ops [OpMerge 1 3; OpMerge 1 5; OpMerge 1 7] s) !! 0
  = Some (OArray [VStr "e1"; VStr "e2"; VStr "e3"]).
Proof.
  intros s.
  destruct (merge_accumulates 1 [3; 5; 7] s true 0 [] (Some (VStr "v"))
              eq_refl eq_refl) as (_ & He & _).
  - repeat constructor; try lia;
      do 4 eexists; (split; [reflexivity|split; [|reflexivity]]); lia.
  - exact He.
Defined.

(** X11 at the value 'guest', the field name 'role' and the allowed values
    ['admin', NaN]. *)
Lemma validators_accept_or_reject_witness :
  let s := mkState [OArray [VStr "admin"; VNum S754_nan]] [] in
  Forall (accepts_or_rejects s (VStr "guest"))
    [isRequired (VStr "guest") (VStr "role") s;
     isPort (VStr "guest") s;
     isOneOf (VStr "guest") (VRef 0) s].
Proof.
  intros s.
  destruct (validators_accept_or_reject (VStr "guest") s)
    as (_ & Hrequired & Hport & HoneOf).
  constructor; [exact (Hrequired (VStr "role") eq_refl)|].
  constructor; [exact (Hport eq_refl)|].
  constructor; [|constructor].
  apply (HoneOf 0 [VStr "admin"; VNum S754_nan] eq_refl).
  constructor; [reflexivity|]. constructor; [reflexivity|]. constructor.
Defined.

(** X12 at the allowed values ['admin', NaN] and the value NaN. *)
Lemma isOneOf_array_spec_witness :
  let s := mkState [OArray [VStr "admin"; VNum S754_nan]] [] in
  isOneOf (VNum S754_nan) (VRef 0) s = returned_ok s (VNum S754_nan).
Proof.
  intros s.
  destruct (isOneOf_array_spec (VNum S754_nan) 0
              [VStr "admin"; VNum S754_nan] s eq_refl) as (_ & Hin & _).
  apply Hin. right. left. reflexivity.
Defined.

(** X13 at the allowed "values" 'admin,user'. *)
Lemma isOneOf_string_spec_witness :
  isOneOf (VStr "user") (VStr "admin,user") s0
  = returned_ok s0 (VStr "user") /\
  isOneOf (VStr "guest") (VStr "admin,user") s0 = Throw ExnTypeError s0.
Proof.
  split.
  - exact (isOneOf_string_spec (VStr "user") "admin,user" s0 eq_refl).
  - exact (isOneOf_string_spec (VStr "guest") "admin,user" s0 eq_refl).
Defined.

(** X15 at function 2 of the sample host, which is [isString]. *)
Lemma field_validators_are_rules_witness : validator_fn (VFun 2).
Proof.
  apply (field_validators_are_rules 2 isString).
  - do 3 right. left. reflexivity.
  - intros arg h. reflexivity.
Defined.

(** X16 at [null]. *)
Lemma validate_without_rules_witness :
  let s := mkState [OPlain []; OSchemaValidator (VRef 0)] [] in
  validate 1 VNull s
  = returned_ok (mkState (heap s ++ [OArray []]) []) VNull.
Proof.
  intros s.
  destruct (validate_without_rules 1 0 VNull s eq_refl eq_refl) as [Hrun _].
  exact Hrun.
Defined.

(** X18 at the rules {name: isString, boom: f, later: g}, where [f]
    throws. *)
Lemma validate_stops_at_raising_rule_witness :
  let s := mkState [OPlain [("name", VFun 2); ("boom", VFun 0);
                            ("later", VFun 4)];
                    OSchemaValidator (VRef 0);
                    OPlain [("name", VStr "x")]] [] in
  exists s' out,
    validate 1 (VRef 2) s = Throw (ExnThrown (VStr "boom")) s' /\
    calls s' = [(2, VStr "x", Some (VRef out)); (0, VUndefined, None)].
Proof.
  intros s.
  destruct (validate_stops_at_raising_rule 1 (VRef 2) (VRef 0) s
              [("name", VFun 2)] [("later", VFun 4)] "boom" (VFun 0)
              (ExnThrown (VStr "boom")) eq_refl)
    as (s' & outs & Hrun & Hlen & Hcalls).
  - cbn. lia.
  - reflexivity.
  - repeat constructor. apply sample_isString_validator.
  - discriminate.
  - discriminate.
  - cbn. lia.
  - intros h. eexists. reflexivity.
  - destruct outs as [|out [|]]; try discriminate.
    exists s', out. split; assumption.
Defined.

(** X19 at the rules {b: isString, 1: isNumber}. *)
Lemma validate_invokes_every_rule_once_witness :
  let s := mkState [OPlain [("b", VFun 2); ("1", VFun 3)];
                    OSchemaValidator (VRef 0);
                    OPlain [("b", VStr "x")]] [] in
  exists s' r new,
    validate 1 (VRef 2) s = Ret (VRef r) s' /\
    calls s' = new /\
    Permutation (List.map (fun c => (fst (fst c), snd (fst c))) new)
                [(2, VStr "x"); (3, VUndefined)].
Proof.
  intros s.
  assert (Hd1 : VRef 2 <> VUndefined) by discriminate.
  assert (Hd2 : VRef 2 <> VNull) by discriminate.
  assert (Hd3 : valid_ref (heap s) (VRef 2)) by (cbn; lia).
  destruct (validate_invokes_every_rule_once 1 0 (VRef 2)
              [("b", VFun 2); ("1", VFun 3)] s
              eq_refl eq_refl Hd1 Hd2 Hd3)
    as (s' & r & new & Hrun & Hcalls & Hperm).
  - constructor; [apply sample_isString_validator|].
    constructor; [|constructor].
    apply (accepting_validator 3 isNumber).
    + intros arg h. reflexivity.
    + apply isNumber_accepts_or_rejects.
  - exists s', r, new. repeat split; assumption.
Defined.

(** X20, X21 and X22 at the rules {name: isString}. *)
Lemma addRule_spec_witness :
  let s := mkState [OPlain [("name", VFun 2)]; OSchemaValidator (VRef 0)] [] in
  exists s',
    addRule 1 (VStr "age") (VFun 3) s = Some (Ret (VRef 1) s') /\
    Get (heap s') (VRef 0) "age" = Some (VFun 3) /\
    Get (heap s') (VRef 0) "name" = Some (VFun 2).
Proof.
  intros s.
  assert (Hkey : primitive_to_string (VStr "age") <> "__proto__")
    by discriminate.
  destruct (addRule_spec 1 0 [("name", VFun 2)] (VStr "age") (VFun 3) s
              eq_refl eq_refl eq_refl Hkey)
    as (s' & props' & Hrun & _ & _ & _ & Hget & Hrest & _).
  exists s'. split; [exact Hrun|]. split; [exact Hget|].
  rewrite Hrest; [reflexivity|discriminate].
Defined.

Lemma addRule_position_witness :
  let s := mkState [OPlain [("name", VFun 2)]; OSchemaValidator (VRef 0)] [] in
  exists s',
    addRule 1 (num 7) (VFun 3) s = Some (Ret (VRef 1) s') /\
    Object_entries (heap s') (VRef 0)
    = Some [("7", VFun 3); ("name", VFun 2)].
Proof.
  intros s.
  assert (Hkey : primitive_to_string (num 7) <> "__proto__")
    by (vm_compute; discriminate).
  destruct (addRule_position 1 0 [("name", VFun 2)] (num 7) (VFun 3) s
              eq_refl eq_refl eq_refl Hkey) as (s' & Hrun & _ & Hfirst).
  exists s'. split; [exact Hrun|]. apply Hfirst; reflexivity.
Defined.

Lemma rule_mapping_is_shared_witness :
  let s := mkState [OPlain [("name", VFun 2)]] [] in
  exists s2,
    addRule 1 (VStr "age") (VFun 3)
      (mkState (heap s ++ [OSchemaValidator (VRef 0);
                           OSchemaValidator (VRef 0)]) [])
    = Some (Ret (VRef 1) s2) /\
    Get (heap s2) (VRef 2) "rules" = Some (VRef 0) /\
    Get (heap s2) (VRef 0) "age" = Some (VFun 3).
Proof.
  intros s.
  assert (Hkey : primitive_to_string (VStr "age") <> "__proto__")
    by discriminate.
  destruct (rule_mapping_is_shared 0 [("name", VFun 2)] (VStr "age") (VFun 3)
              s eq_refl eq_refl Hkey) as (_ & s2 & Hrun & Hrules & Hget & _).
  exists s2. repeat split; assumption.
Defined.
End MoreRuns.
